(** * Spliit importer: share allocation, statement fetching and upload

    A shallow embedding of [app.py].  The Streamlit script keeps its state in
    [st.session_state] and talks to two remote services (the Spliit ledger and
    the Monobank statement feed).  Here the session state is passed
    explicitly, the remote services are oracles indexed by the number of calls
    already made to them, and every [st.error] / [st.warning] is appended to a
    message log.

    Conventions.
    - A Python [dict] with string keys whose iteration order matters
      ([get_participants()]) is an association list with distinct keys; the
      share map [st.session_state["participant_shares"]], which is only read
      and written by key, is a [gmap string Z].
    - A [datetime.date] is its proleptic Gregorian ordinal (a [Z]); adding a
      [timedelta(days=n)] is integer addition.  The date widgets only hand out
      dates within ten years of today, so the arithmetic below never leaves the
      range of [datetime.date].
    - Currency amounts are Python floats in the source; they are modelled by
      the exact rationals they approximate ([Q]). *)

From Stdlib Require Import ZArith QArith Qminmax Lia.
From stdpp Require Import gmap strings list fin_maps pretty.

Local Open Scope Z_scope.

(** ** Python helpers *)

(** [d[key]] on a dict given as an association list: the value of the first
    (and, keys being distinct, only) entry; [None] stands for [KeyError]. *)
Fixpoint assoc_lookup {A} (key : string) (d : list (string * A)) : option A :=
  match d with
  | [] => None
  | (k, v) :: rest => if decide (k = key) then Some v else assoc_lookup key rest
  end.

(** [l[:-1]] *)
Definition all_but_last {A} (l : list A) : list A := removelast l.

(** [l[-1]]; [None] stands for [IndexError]. *)
Definition last_item {A} (l : list A) : option A := last l.

(** [c.isspace()] for an ASCII character. *)
Definition py_isspace (c : Ascii.ascii) : bool :=
  let n := Ascii.N_of_ascii c in
  ((9 <=? n) && (n <=? 13) || (28 <=? n) && (n <=? 32))%N.

(** [s.lstrip()] and [s.strip()] *)
Fixpoint lstrip (s : string) : string :=
  match s with
  | EmptyString => EmptyString
  | String c rest => if py_isspace c then lstrip rest else s
  end.

Definition strip (s : string) : string :=
  String.rev (lstrip (String.rev (lstrip s))).

(** Sum of a list of integers. *)
Definition sum_list (l : list Z) : Z := foldr Z.add 0 l.

(** ** ShareAllocator *)

Module ShareAllocator.

(** [{name: equal_share for name in names}] *)
Definition dict_of_names (names : list string) (share : Z) : gmap string Z :=
  foldl (λ m name, <[name := share]> m) ∅ names.

(** The initialisation of the shares in the "Fetch Group" handler.
    [participants] is [get_participants()], a dict from name to id.
    [int(100 / len(participants))] is the floor of the quotient for a positive
    length; an empty dict raises [ZeroDivisionError] ([None]). *)
Definition default_shares (participants : list (string * string))
  : option (gmap string Z) :=
  let names := participants.*1 in
  let n := Z.of_nat (length participants) in
  if decide (n = 0) then None
  else
    let equal_share := 100 `div` n in
    let remaining_participants := n - 1 in
    let last_participant_share := 100 - equal_share * remaining_participants in
    let shares := dict_of_names (all_but_last names) equal_share in
    name ← last_item names;
    Some (<[name := last_participant_share]> shares).

(** The live sum reported next to the share inputs: each input starts from
    [participant_shares.get(name, 0)] and the values are added up over the
    participants of the group. *)
Definition total_share (shares : gmap string Z) (names : list string) : Z :=
  sum_list ((λ name, default 0 (shares !! name)) <$> names).

(** [get_participant_info]: the payer id and the [paid_for] list of
    (participant id, weight in basis points).  [None] stands for the
    [KeyError] of [participants[selected]] or of [shares[name]].  The shares
    are integers, so [int(share * 100)] is the product itself. *)
Definition paid_for_of (shares : gmap string Z)
    (participants : list (string * string)) : option (list (string * Z)) :=
  mapM (λ '(name, pid), share ← shares !! name; Some (pid, share * 100))
       participants.

Definition get_participant_info (participants : list (string * string))
    (shares : gmap string Z) (selected_participant : string)
  : option (string * list (string * Z)) :=
  payer_id ← assoc_lookup selected_participant participants;
  paid_for ← paid_for_of shares participants;
  Some (payer_id, paid_for).

End ShareAllocator.

Import ShareAllocator.

(** ** Transactions *)

(** The value of a date column: [datetime.date] (manual and CSV rows) or
    [datetime.datetime.fromtimestamp(t)] (bank rows), kept as the ordinal
    and the Unix timestamp it was built from. *)
Inductive pydate :=
  | Date (ordinal : Z)
  | DateTime (timestamp : Z).

(** A transaction dict.  A field is [None] when the key is absent (or, for
    ["id"], when [s.get("id")] found nothing). *)
Record transaction := {
  t_id : option string;
  t_amount : option Q;
  t_name : option string;
  t_mcc : option string;
  t_category : option string;
  t_selected : option bool;
  t_date : option pydate
}.

(** ** StatementFetcher *)

Module StatementFetcher.

(** A raw statement entry of the bank feed; a field is [None] when the key is
    absent.  [amount] is in signed minor units. *)
Record statement := {
  s_id : option string;
  s_amount : option Z;
  s_description : option string;
  s_mcc : option Z;
  s_time : option Z
}.

Section Normalize.

(** The cached MCC table fetched by [get_mcc_codes]. *)
Variable mcc_codes : gmap string string.

(** [get_mcc_description] *)
Definition get_mcc_description (mcc : string) : string :=
  default ("Unknown (" +:+ mcc +:+ ")") (mcc_codes !! mcc).

(** [abs(s.get("amount", 0)) / 100.0] *)
Definition normalized_amount (s : statement) : Q :=
  Z.abs (default 0 (s_amount s)) # 100.

(** [str(s.get("mcc", ""))] *)
Definition mcc_string (s : statement) : string :=
  from_option pretty "" (s_mcc s).

(** One round of the normalisation loop. *)
Definition normalize (s : statement) : transaction :=
  {| t_id := s_id s;
     t_amount := Some (normalized_amount s);
     t_name := Some (default "N/A" (s_description s));
     t_mcc := Some (mcc_string s);
     t_category := Some (get_mcc_description (mcc_string s));
     t_selected := Some false;
     t_date := Some (DateTime (default 0 (s_time s))) |}.

End Normalize.

(** What one call of [get_statements] does. *)
Inductive response :=
  | Statements (statements : list statement)
  | TooManyRequests
  | Failure (msg : string).

(** The bank: the outcome of a call given the number of calls made before it
    and the requested window [from, to]. *)
Definition bank := nat → Z → Z → response.

(** The variables of the fetch loop, the windows requested so far (oldest call
    first), the seconds spent in [time.sleep], the fraction last shown on the
    progress bar and the messages shown with [st.error]. *)
Record loop_state := {
  current_to_date : Z;
  all_statements : list statement;
  calls : list (Z * Z);
  slept : Z;
  progress : Q;
  errors : list string
}.

(** How the [while True] loop was left: by the [break] after the test
    [current_from_date <= start_date], or by the [break] of the generic
    [except Exception] branch. *)
Inductive loop_exit :=
  | ReachedStart
  | ChunkError.

Inductive step :=
  | Continue (st : loop_state)
  | Break (how : loop_exit) (st : loop_state).

Section Loop.

Variable mcc_codes : gmap string string.
Variable get_statements : bank.
Variables start_date end_date : Z.

(** One iteration of the [while True] loop.  [all_statements.extend] is
    guarded by [if statements:], which only skips the extension by an empty
    list.  The cooldown between two windows is five [time.sleep(1)], the one
    after a rate-limit signal is one [time.sleep(5)].  The status texts are
    left out. *)
Definition loop_body (st : loop_state) : step :=
  let current_from_date := Z.max start_date (current_to_date st - 30) in
  let called := calls st ++ [(current_from_date, current_to_date st)] in
  match get_statements (length (calls st)) current_from_date (current_to_date st) with
  | TooManyRequests =>
      Continue {| current_to_date := current_to_date st;
                  all_statements := all_statements st;
                  calls := called;
                  slept := slept st + 5;
                  progress := progress st;
                  errors := errors st |}
  | Failure msg =>
      Break ChunkError
            {| current_to_date := current_to_date st;
               all_statements := all_statements st;
               calls := called;
               slept := slept st;
               progress := progress st;
               errors := errors st ++ ["Error fetching chunk: " +:+ msg] |}
  | Statements statements =>
      let gathered := all_statements st ++ statements in
      let total_days := end_date - start_date in
      let days_processed := end_date - current_from_date in
      if decide (total_days = 0) then
        (* ZeroDivisionError in [days_processed / total_days] *)
        Break ChunkError
              {| current_to_date := current_to_date st;
                 all_statements := gathered;
                 calls := called;
                 slept := slept st;
                 progress := progress st;
                 errors := errors st ++ ["Error fetching chunk: division by zero"] |}
      else
        let shown := Qmin 1 (Qmake days_processed 1 / Qmake total_days 1) in
        if decide (current_from_date ≤ start_date) then
          Break ReachedStart
                {| current_to_date := current_to_date st;
                   all_statements := gathered;
                   calls := called;
                   slept := slept st;
                   progress := shown;
                   errors := errors st |}
        else
          Continue {| current_to_date := current_from_date - 1;
                      all_statements := gathered;
                      calls := called;
                      slept := slept st + 5;
                      progress := shown;
                      errors := errors st |}
  end.

(** The loop, run for at most [fuel] iterations; [None] when it is still
    running after that many. *)
Fixpoint fetch_loop (fuel : nat) (st : loop_state) : option (loop_exit * loop_state) :=
  match fuel with
  | O => None
  | S fuel' =>
      match loop_body st with
      | Break how st' => Some (how, st')
      | Continue st' => fetch_loop fuel' st'
      end
  end.

Definition initial_state : loop_state :=
  {| current_to_date := end_date;
     all_statements := [];
     calls := [];
     slept := 0;
     progress := 0;
     errors := [] |}.

End Loop.

(** What the "Fetch Statements" handler leaves behind: the refusal of the
    range, or the loop's final state together with the new value of
    [st.session_state["transactions"]]. *)
Inductive fetch_result :=
  | InvalidRange (msg : string)
  | Fetched (how : loop_exit) (st : loop_state) (transactions : list transaction).

(** The number of remote calls a result stands for. *)
Definition calls_made (r : fetch_result) : list (Z * Z) :=
  match r with
  | InvalidRange _ => []
  | Fetched _ st _ => calls st
  end.

(** The "Fetch Statements" handler. *)
Definition fetch_statements (mcc_codes : gmap string string) (get_statements : bank)
    (start_date end_date : Z) (fuel : nat) : option fetch_result :=
  if decide (start_date > end_date) then
    Some (InvalidRange "Start date must be on or before end date.")
  else
    '(how, st) ← fetch_loop get_statements start_date end_date fuel
                    (initial_state end_date);
    Some (Fetched how st (normalize mcc_codes <$> all_statements st)).

End StatementFetcher.

(** ** UploadOrchestrator *)

Module UploadOrchestrator.

(** The keyword arguments of [add_expense]; the split mode is always
    [SplitMode.BY_PERCENTAGE]. *)
Record expense_request := {
  title : string;
  amount : Z;
  paid_by : string;
  paid_for : list (string * Z);
  notes : string;
  expense_date : pydate
}.

(** A decoded JSON document; an object is the dict [json.loads] builds. *)
#[warnings="-register-all"]
Inductive json :=
  | JNull
  | JBool (b : bool)
  | JNum (q : Q)
  | JStr (s : string)
  | JArr (items : list json)
  | JObj (fields : list (string * json)).

(** What one call of [add_expense] does: it raises, or it returns a body
    whose [json.loads] is [body] ([None] when [json.loads] raises). *)
Inductive add_result :=
  | Raises (msg : string)
  | Returns (body : option json).

(** The ledger: the outcome of a call given the number of calls made before
    it and the request. *)
Definition ledger := nat → expense_request → add_result.

(** Python truth value of a decoded document. *)
Definition truthy (j : json) : bool :=
  match j with
  | JNull => false
  | JBool b => b
  | JNum q => negb (Qnum q =? 0)
  | JStr s => negb (String.eqb s "")
  | JArr items => match items with [] => false | _ => true end
  | JObj fields => match fields with [] => false | _ => true end
  end.

(** [j.get(key, {})]; [None] stands for the [AttributeError] of a value that
    is not a dict. *)
Definition get_or_empty (key : string) (j : json) : option json :=
  match j with
  | JObj fields => Some (default (JObj []) (assoc_lookup key fields))
  | _ => None
  end.

(** The body of the [try] in [upload_transaction_to_spliit]: [Some true] when
    it reaches [return True], [Some false] when it falls through, [None] when
    it raises. *)
Definition expense_created (body : option json) : option bool :=
  response_data ← body;
  if truthy response_data then
    match response_data with
    | JArr (first :: _) =>
        r1 ← get_or_empty "result" first;
        r2 ← get_or_empty "data" r1;
        result ← get_or_empty "json" r2;
        match result with
        | JObj fields =>
            Some (from_option truthy false (assoc_lookup "expenseId" fields))
        | _ => None
        end
    | _ => None   (* [len] of a number, [response_data[0]] of a dict, [.get] of a character *)
    end
  else Some false.

(** [int(x)] for a rational: truncation towards zero. *)
Definition int_of_Q (x : Q) : Z := Z.quot (Qnum x) (Z.pos (Qden x)).

(** The title sent to the ledger. *)
Definition expense_title (title : string) (transaction_id : option string) : string :=
  match transaction_id with
  | Some id => if String.eqb id "" then title else title +:+ " mono-" +:+ id
  | None => title
  end.

(** The notes sent to the ledger. *)
Definition expense_notes (category : option string) : string :=
  match category with
  | Some c => if String.eqb c "" then "" else "Category: " +:+ c
  | None => ""
  end.

(** What [upload_transaction_to_spliit] did. *)
Inductive attempt :=
  | Raised (msg : string)
  | Returned (ok : bool) (shown : list string).

Section Upload.

(** [datetime.date.today()] *)
Variable today : Z.

(** The request [upload_transaction_to_spliit] builds. *)
Definition build_request (payer_id : string) (paid_for : list (string * Z))
    (title : string) (amount : Q) (category : option string)
    (transaction_id : option string) (date : option pydate) : expense_request :=
  {| title := expense_title title transaction_id;
     amount := int_of_Q (amount * 100);
     paid_by := payer_id;
     paid_for := paid_for;
     notes := expense_notes category;
     expense_date := default (Date today) date |}.

(** [upload_transaction_to_spliit]: the call of [add_expense] is appended to
    the requests [sent] to the ledger so far.  The text of the caught
    exception is left out of the message. *)
Definition upload_transaction_to_spliit (spliit : ledger)
    (sent : list expense_request)
    (payer_id : string) (paid_for : list (string * Z))
    (title : string) (amount : Q) (category : option string)
    (transaction_id : option string) (date : option pydate)
  : attempt * list expense_request :=
  let request := build_request payer_id paid_for title amount category
                               transaction_id date in
  let outcome :=
    match spliit (length sent) request with
    | Raises msg => Raised msg
    | Returns body =>
        match expense_created body with
        | Some ok => Returned ok []
        | None => Returned false ["Failed to parse Spliit response"]
        end
    end in
  (outcome, sent ++ [request]).

(** The counter of [upload_transactions_batch], the requests sent so far
    (oldest first) and the messages shown. *)
Record batch_state := {
  success_count : nat;
  sent : list expense_request;
  shown : list string
}.

(** One round of the loop of [upload_transactions_batch]; [inr] when an
    exception leaves the function.  A missing ["name"] raises [KeyError] in
    the [try] and again in the handler's message; a missing ["amount"] is
    caught and reported. *)
Definition upload_one (spliit : ledger) (payer_id : string)
    (paid_for : list (string * Z)) (st : batch_state) (transaction : transaction)
  : batch_state + string :=
  match t_name transaction with
  | None => inr "'name'"
  | Some name =>
      let failed := "Failed to upload transaction '" +:+ name +:+ "': " in
      match t_amount transaction with
      | None =>
          inl {| success_count := success_count st;
                 sent := sent st;
                 shown := shown st ++ [failed +:+ "'amount'"] |}
      | Some amount =>
          match upload_transaction_to_spliit spliit (sent st)
                  payer_id paid_for name amount
                  (Some (default "N/A" (t_category transaction)))
                  (t_id transaction)
                  (Some (default (Date today) (t_date transaction))) with
          | (Returned true msgs, sent') =>
              inl {| success_count := S (success_count st);
                     sent := sent';
                     shown := shown st ++ msgs |}
          | (Returned false msgs, sent') =>
              inl {| success_count := success_count st;
                     sent := sent';
                     shown := shown st ++ msgs
                              ++ [failed +:+ "Invalid response from Spliit"] |}
          | (Raised msg, sent') =>
              inl {| success_count := success_count st;
                     sent := sent';
                     shown := shown st ++ [failed +:+ msg] |}
          end
      end
  end.

(** [upload_transactions_batch], from a given state of the counter. *)
Fixpoint batch_from (spliit : ledger) (payer_id : string)
    (paid_for : list (string * Z)) (st : batch_state)
    (transactions : list transaction) : batch_state + (string * batch_state) :=
  match transactions with
  | [] => inl st
  | transaction :: rest =>
      match upload_one spliit payer_id paid_for st transaction with
      | inl st' => batch_from spliit payer_id paid_for st' rest
      | inr msg => inr (msg, st)
      end
  end.

Definition upload_transactions_batch (spliit : ledger) (payer_id : string)
    (paid_for : list (string * Z)) (transactions : list transaction)
  : batch_state + (string * batch_state) :=
  batch_from spliit payer_id paid_for
    {| success_count := 0; sent := []; shown := [] |} transactions.

End Upload.

(** The Spliit client of the session: the participants of the group it was
    built for, as [get_participants()] returns them, and the ledger. *)
Record client := {
  participants : list (string * string);
  spliit : ledger
}.

(** The part of [st.session_state] that [upload_to_spliit] reads. *)
Record session := {
  spliit_client : option client;
  selected_participant : option string;
  participant_shares : gmap string Z
}.

(** What [upload_to_spliit] returned, the requests it sent to the ledger and
    the messages it showed. *)
Record upload_outcome := {
  uploaded : bool;
  requests : list expense_request;
  messages : list string
}.

(** The filter of [upload_to_spliit]:
    [t.get("name", "").strip() and t.get("amount", 0) > 0]. *)
Definition valid_transaction (t : transaction) : bool :=
  negb (String.eqb (strip (default "" (t_name t))) "")
  && negb (Qle_bool (default 0%Q (t_amount t)) 0).

Definition refused (msg : string) : upload_outcome :=
  {| uploaded := false; requests := []; messages := [msg] |}.

(** [upload_to_spliit] *)
Definition upload_to_spliit (today : Z) (state : session)
    (transactions_to_upload : list transaction) : upload_outcome :=
  match spliit_client state with
  | None => refused "No group information. Please fetch the group first."
  | Some client =>
      match selected_participant state with
      | None => refused "Please select a participant first."
      | Some selected =>
          if String.eqb selected "" then
            refused "Please select a participant first."
          else
            match get_participant_info (participants client)
                    (participant_shares state) selected with
            | None => refused "Failed to upload transactions"
            | Some (payer_id, paid_for) =>
                let valid_transactions :=
                  List.filter valid_transaction transactions_to_upload in
                match valid_transactions with
                | [] => refused "No valid transactions to upload. Make sure transactions have at least a name and amount."
                | _ =>
                    match upload_transactions_batch today (spliit client)
                            payer_id paid_for valid_transactions with
                    | inl st =>
                        if decide (0 < success_count st)%nat then
                          {| uploaded := true;
                             requests := sent st;
                             messages := shown st ++
                               ["Successfully uploaded " +:+ pretty (success_count st)
                                +:+ " transaction(s) to Spliit."] |}
                        else
                          {| uploaded := false;
                             requests := sent st;
                             messages := shown st |}
                    | inr (msg, st) =>
                        {| uploaded := false;
                           requests := sent st;
                           messages := shown st ++
                             ["Failed to upload transactions: " +:+ msg] |}
                    end
                end
            end
      end
  end.

End UploadOrchestrator.

(** * Sample data and the claims as the specification states them *)

Import ShareAllocator StatementFetcher UploadOrchestrator.

(** The claim as the specification words it: non-negative shares, summing to
    100, no two of them more than 1 apart. *)
Definition evenly_allocated (participants : list (string * string)) : Prop :=
  ∃ shares,
    default_shares participants = Some shares
    ∧ (∀ name, name ∈ participants.*1 → ∃ v, shares !! name = Some v ∧ 0 ≤ v)
    ∧ total_share shares participants.*1 = 100
    ∧ (∀ a b va vb, shares !! a = Some va → shares !! b = Some vb →
         Z.abs (va - vb) ≤ 1).

Definition seven_participants : list (string * string) :=
  [("a", "p1"); ("b", "p2"); ("c", "p3"); ("d", "p4");
   ("e", "p5"); ("f", "p6"); ("g", "p7")].

(** The weight the conversion gives a participant of the group. *)
Definition weight_of (shares : gmap string Z) (entry : string * string)
  : string * Z :=
  (entry.2, default 0 (shares !! entry.1) * 100).

Definition two_participants : list (string * string) :=
  [("ann", "p1"); ("bob", "p2")].

Definition shares_60_40 : gmap string Z := <["bob" := 40]> (<["ann" := 60]> ∅).

(** A raw statement entry with the given signed amount in minor units. *)
Definition entry_of_amount (raw : Z) : statement :=
  {| s_id := Some "ZuHWzqkKGVo=";
     s_amount := Some raw;
     s_description := Some "Coffee";
     s_mcc := Some 5814;
     s_time := Some 1700000000 |}.

(** The claim as the specification words it: the normalised amount of an
    entry is [abs(raw)/100] and strictly positive. *)
Definition amount_normalised_positive (mcc_codes : gmap string string)
    (s : statement) : Prop :=
  ∃ q, t_amount (normalize mcc_codes s) = Some q
       ∧ (q == inject_Z (Z.abs (default 0%Z (s_amount s))) / inject_Z 100)%Q
       ∧ (0 < q)%Q.

(** The window the loop requests next. *)
Definition next_window (start_date : Z) (st : loop_state) : Z * Z :=
  (Z.max start_date (current_to_date st - 30), current_to_date st).

(** The loop state after [n] further calls for the same window were each
    answered by the rate-limit signal. *)
Definition after_retries (start_date : Z) (n : nat) (st : loop_state) : loop_state :=
  {| current_to_date := current_to_date st;
     all_statements := all_statements st;
     calls := calls st ++ replicate n (next_window start_date st);
     slept := slept st + 5 * Z.of_nat n;
     progress := progress st;
     errors := errors st |}.

(** Windows that tile the dates from [start] up to [hi], latest window
    first: each window ends the day before the previous one begins and the
    last one begins at [start]. *)
Inductive chained (start : Z) : Z → list (Z * Z) → Prop :=
  | chained_last hi :
      start ≤ hi → chained start hi [(start, hi)]
  | chained_more lo hi ws :
      start < lo → lo ≤ hi → chained start (lo - 1) ws →
      chained start hi ((lo, hi) :: ws).

(** A date lies in a window. *)
Definition in_window (d : Z) (w : Z * Z) : Prop := w.1 ≤ d ≤ w.2.

(** A bank without statements that answers every call. *)
Definition quiet_bank : bank := λ _ _ _, Statements [].

(** [ceil(a/b)] for positive [b]. *)
Definition ceil_div (a b : Z) : Z := (a + b - 1) `div` b.

(** The call count as the specification words it: [ceil(R/30)] calls for a
    range of [R] days. *)
Definition issues_ceil_over_30 (get_statements : bank) (start_date end_date R : Z)
  : Prop :=
  ∀ fuel how st transactions,
    fetch_statements ∅ get_statements start_date end_date fuel
    = Some (Fetched how st transactions) →
    Z.of_nat (length (calls st)) = ceil_div R 30.

(** A bank that signals the rate limit on its first [n] calls and then
    answers with the given statements. *)
Definition busy_bank (n : nat) (statements : list statement) : bank :=
  λ k _ _, if (k <? n)%nat then TooManyRequests else Statements statements.

(** Whether a call of [add_expense] with this outcome counts as a success:
    it returned a body in which an expense id was found. *)
Definition accepted (r : add_result) : bool :=
  match r with
  | Raises _ => false
  | Returns body => default false (expense_created body)
  end.

(** The number of requests, sent as calls [k], [k+1], ... of the ledger, that
    it accepted. *)
Fixpoint count_accepted (spliit : ledger) (k : nat)
    (requests : list expense_request) : nat :=
  match requests with
  | [] => 0
  | request :: rest =>
      ((if accepted (spliit k request) then 1 else 0)
       + count_accepted spliit (S k) rest)%nat
  end.

(** The request [upload_transactions_batch] sends for a transaction that has
    a name and an amount. *)
Definition request_for (today : Z) (payer_id : string)
    (paid_for : list (string * Z)) (t : transaction) : option expense_request :=
  name ← t_name t;
  amount ← t_amount t;
  Some (build_request today payer_id paid_for name amount
          (Some (default "N/A" (t_category t))) (t_id t)
          (Some (default (Date today) (t_date t)))).

(** The body Spliit answers with when it created the expense. *)
Definition created_body : json :=
  JArr [JObj [("result",
    JObj [("data", JObj [("json", JObj [("expenseId", JStr "exp-1")])])])]].

(** A ledger that creates every expense. *)
Definition accepting_ledger : ledger := λ _ _, Returns (Some created_body).

(** A ledger whose third call fails at the transport level. *)
Definition third_call_fails : ledger :=
  λ k _, if (k =? 2)%nat then Raises "Connection aborted." else Returns (Some created_body).

(** A manual transaction. *)
Definition manual_entry (name : string) (amount : Q) : transaction :=
  {| t_id := None;
     t_amount := Some amount;
     t_name := Some name;
     t_mcc := None;
     t_category := Some "";
     t_selected := None;
     t_date := Some (Date 739000) |}.

Definition five_entries : list transaction :=
  [manual_entry "Bread" 30; manual_entry "Milk" 42; manual_entry "Tea" 55;
   manual_entry "Salt" 12; manual_entry "Rice" 80].

(** A session whose shares sum to 99. *)
Definition shares_50_49 : gmap string Z := <["bob" := 49]> (<["ann" := 50]> ∅).

Definition session_99 : session :=
  {| spliit_client := Some {| participants := two_participants;
                              spliit := accepting_ledger |};
     selected_participant := Some "ann";
     participant_shares := shares_50_49 |}.

(** * Further parts of the script *)

(** ** The MCC table *)

Module MccCodes.

(** An item of the downloaded list; a field is [None] when the key is absent.
    [item_mcc] is [str(item["mcc"])]. *)
Record mcc_item := {
  item_mcc : option string;
  item_description : option string
}.

(** [get_mcc_codes]: [fetched] is the decoded list, [None] when the request
    or the decoding raised (a warning is shown and the table is empty).  The
    dict comprehension keeps, for a code that occurs twice, the later item. *)
Definition get_mcc_codes (fetched : option (list mcc_item)) : gmap string string :=
  match fetched with
  | None => ∅
  | Some mcc_data =>
      foldl (λ codes item,
               match item_mcc item, item_description item with
               | Some mcc, Some description => <[mcc := description]> codes
               | _, _ => codes
               end) ∅ mcc_data
  end.

End MccCodes.

(** ** The share editor *)

Module ShareEditor.

(** [names.remove(x)]: the list without the first occurrence of [x]; [None]
    stands for [ValueError]. *)
Fixpoint list_remove (x : string) (names : list string) : option (list string) :=
  match names with
  | [] => None
  | y :: rest =>
      if decide (y = x) then Some rest
      else rest' ← list_remove x rest; Some (y :: rest')
  end.

(** The participant names with the selected user moved to the front. *)
Definition selected_first (names : list string) (selected : string)
  : option (list string) :=
  rest ← list_remove selected names;
  Some (selected :: rest).

(** The loop over the share inputs: [entered name] is what the number input
    of [name] returns; it is stored in the share map and added to the
    total. *)
Definition share_inputs (entered : string → Z) (shares : gmap string Z)
    (participant_names : list string) : gmap string Z * Z :=
  foldl (λ '(shares, total_share) name,
           (<[name := entered name]> shares, total_share + entered name))
        (shares, 0) participant_names.

(** The editor: the new share map, the total, and whether the warning
    "Total share must be 100%" is shown. *)
Definition share_editor (entered : string → Z) (shares : gmap string Z)
    (participants : list (string * string)) (selected : string)
  : option (gmap string Z * Z * bool) :=
  participant_names ← selected_first participants.*1 selected;
  let '(shares', total_share) := share_inputs entered shares participant_names in
  Some (shares', total_share, bool_decide (total_share ≠ 100)).

End ShareEditor.

(** ** The upload button *)

Module UploadSection.

Import UploadOrchestrator.

(** [render_upload_section]: [pressed] is what [st.button] returns, [app] the
    part of the session the callback writes.  The callback runs when
    [upload_to_spliit] returned [True]. *)
Definition render_upload_section {S} (today : Z) (state : session) (pressed : bool)
    (transactions_to_upload : list transaction) (on_success : option (S → S))
    (app : S) : S * option upload_outcome :=
  if pressed then
    let outcome := upload_to_spliit today state transactions_to_upload in
    match on_success with
    | Some callback =>
        if uploaded outcome then (callback app, Some outcome)
        else (app, Some outcome)
    | None => (app, Some outcome)
    end
  else (app, None).

(** [t.get("selected", False)] *)
Definition is_selected (t : transaction) : bool := default false (t_selected t).

(** Step 4 of the Monobank import: [edited_transactions] is what the data
    editor returns, [pending] is [st.session_state["transactions"]]. *)
Definition upload_selected (today : Z) (state : session) (pressed : bool)
    (edited_transactions pending : list transaction)
  : list transaction * option upload_outcome :=
  let selected_transactions := List.filter is_selected edited_transactions in
  render_upload_section today state pressed selected_transactions
    (Some (λ _ : list transaction,
             List.filter (λ t, negb (is_selected t)) edited_transactions))
    pending.

(** The single empty row of [reset_manual_entry]. *)
Definition empty_row (today : Z) : transaction :=
  {| t_id := None;
     t_amount := Some 0%Q;
     t_name := Some "";
     t_mcc := None;
     t_category := Some "";
     t_selected := None;
     t_date := Some (Date today) |}.

Definition reset_manual_entry (today : Z) : list transaction := [empty_row today].

(** The upload section of the manual tab. *)
Definition upload_manual (today : Z) (state : session) (pressed : bool)
    (edited_manual_transactions manual_transactions : list transaction)
  : list transaction * option upload_outcome :=
  render_upload_section today state pressed edited_manual_transactions
    (Some (λ _ : list transaction, reset_manual_entry today))
    manual_transactions.

End UploadSection.

(** ** The CSV import *)

Module CsvImport.

Section Rows.

(** [float(s)]; [None] stands for [ValueError]. *)
Variable parse_float : string → option Q.

(** [datetime.date.today()] *)
Variable today : Z.

(** The variables of the loop over the rows. *)
Record csv_state := {
  transactions : list transaction;
  error_count : nat;
  row_number : nat;
  csv_errors : list string
}.

(** One round of the loop over the rows of the reader.  A row with fewer
    than two cells is skipped by [continue], before [row_number] is
    incremented.  The text of the caught exception is left out of the
    message. *)
Definition csv_row (st : csv_state) (row : list string) : csv_state :=
  match row with
  | [] | [_] => st
  | cell0 :: cell1 :: more =>
      match parse_float (strip cell0) with
      | Some amount =>
          let description := strip cell1 in
          let category :=
            match more with
            | cell2 :: _ => strip cell2
            | [] => ""
            end in
          {| transactions := transactions st ++
               [{| t_id := None;
                   t_amount := Some amount;
                   t_name := Some description;
                   t_mcc := None;
                   t_category := Some category;
                   t_selected := None;
                   t_date := Some (Date today) |}];
             error_count := error_count st;
             row_number := S (row_number st);
             csv_errors := csv_errors st |}
      | None =>
          {| transactions := transactions st;
             error_count := S (error_count st);
             row_number := S (row_number st);
             csv_errors := csv_errors st ++
               ["Error in row " +:+ pretty (row_number st)] |}
      end
  end.

(** The reading of the file: [rows] is what [csv.reader] yields.  On an
    empty file [next(reader)] raises [StopIteration] ([None]), which the
    outer handler reports. *)
Definition read_csv (rows : list (list string)) : option csv_state :=
  match rows with
  | [] => None
  | header :: data =>
      Some (foldl csv_row
              {| transactions := []; error_count := 0;
                 row_number := 1; csv_errors := [] |} data)
  end.

End Rows.

End CsvImport.

(** ** Notions used in the statements about the further parts *)

(** The statements a call contributed: those of its answer, none when it was
    refused. *)
Definition answer_of (get_statements : bank) (k : nat) (w : Z * Z) : list statement :=
  match get_statements k w.1 w.2 with
  | Statements statements => statements
  | _ => []
  end.

(** The statements contributed by the calls [k], [k+1], ... for the windows
    [ws], in the order of the calls. *)
Fixpoint gathered_from (get_statements : bank) (k : nat) (ws : list (Z * Z))
  : list statement :=
  match ws with
  | [] => []
  | w :: rest => answer_of get_statements k w ++ gathered_from get_statements (S k) rest
  end.

(** A string has a character that is not white space. *)
Fixpoint has_text (s : string) : bool :=
  match s with
  | EmptyString => false
  | String c rest => negb (py_isspace c) || has_text rest
  end.

(** The final state of the loop over the range of the sample run. *)
Definition quiet_final : loop_state :=
  Eval vm_compute in
    match fetch_loop quiet_bank 739000 739061 5 (initial_state 739061) with
    | Some (_, st) => st
    | None => initial_state 739061
    end.

(** A session whose shares sum to 100. *)
Definition session_60_40 : session :=
  {| spliit_client := Some {| participants := two_participants;
                              spliit := third_call_fails |};
     selected_participant := Some "ann";
     participant_shares := shares_60_40 |}.

Definition client_60_40 : client :=
  {| participants := two_participants; spliit := third_call_fails |}.

Definition weights_60_40 : list (string * Z) := [("p1", 6000); ("p2", 4000)].

Definition bread_request : expense_request :=
  {| title := "Bread";
     amount := 3000;
     paid_by := "p1";
     paid_for := weights_60_40;
     notes := "";
     expense_date := Date 739000 |}.

(** A row without the ["name"] key. *)
Definition nameless_entry : transaction :=
  {| t_id := None;
     t_amount := Some 12%Q;
     t_name := None;
     t_mcc := None;
     t_category := None;
     t_selected := None;
     t_date := None |}.

(** A row with the check box of the editor ticked. *)
Definition ticked (t : transaction) : transaction :=
  {| t_id := t_id t;
     t_amount := t_amount t;
     t_name := t_name t;
     t_mcc := t_mcc t;
     t_category := t_category t;
     t_selected := Some true;
     t_date := t_date t |}.

(** Five ticked rows and one that is not. *)
Definition edited_rows : list transaction :=
  (ticked <$> five_entries) ++ [manual_entry "Soap" 25].

(** The rows of a CSV file with fewer than two cells. *)
Definition short_rows (data : list (list string)) : nat :=
  length (List.filter (λ row, (length row <? 2)%nat) data).

(** What the CSV import gives every row it accepts. *)
Definition csv_shaped (today : Z) (t : transaction) : Prop :=
  t_id t = None ∧ t_date t = Some (Date today)
  ∧ is_Some (t_name t) ∧ is_Some (t_amount t).

(** An item of the MCC list counts for a code when it has that code and a
    description. *)
Definition describes (code : string) (item : MccCodes.mcc_item) : Prop :=
  MccCodes.item_mcc item = Some code ∧ is_Some (MccCodes.item_description item).

(** A bank that answers its first call with one debit and fails on the
    second. *)
Definition second_call_fails : bank :=
  λ k _ _, if (k =? 0)%nat then Statements [entry_of_amount (-15000)]
           else Failure "Read timed out.".

(** * Properties *)

(** ** Default share allocation *)

Section DefaultShares.

Import ShareAllocator.

Lemma foldl_insert_lookup (names : list string) (share : Z)
    (m : gmap string Z) (x : string) :
  foldl (λ m name, <[name := share]> m) m names !! x
  = if decide (x ∈ names) then Some share else m !! x.
Proof.
  revert m. induction names as [|y names IH]; intros m; cbn [foldl].
  - rewrite decide_False; [done | apply not_elem_of_nil].
  - rewrite IH. destruct (decide (x = y)) as [->|Hne].
    + rewrite lookup_insert_eq, (decide_True (P := y ∈ y :: names)) by (by left).
      by destruct (decide (y ∈ names)).
    + rewrite lookup_insert_ne by done.
      destruct (decide (x ∈ names)) as [Hin|Hnin].
      * rewrite decide_True; [done | by right].
      * rewrite decide_False; [done | by intros [?|?]%elem_of_cons].
Qed.

Lemma dict_of_names_lookup (names : list string) (share : Z) (x : string) :
  dict_of_names names share !! x = if decide (x ∈ names) then Some share else None.
Proof. unfold dict_of_names. by rewrite foldl_insert_lookup, lookup_empty. Qed.

Lemma sum_list_cons (x : Z) (l : list Z) : sum_list (x :: l) = x + sum_list l.
Proof. reflexivity. Qed.

Lemma sum_list_const {A} (f : A → Z) (c : Z) (l : list A) :
  (∀ y, y ∈ l → f y = c) → sum_list (f <$> l) = c * Z.of_nat (length l).
Proof.
  induction l as [|y l IH]; intros Hf; [cbn; lia|].
  rewrite fmap_cons, sum_list_cons, (Hf y), IH.
  - cbn [length]. lia.
  - intros z Hz. apply Hf. by right.
  - by left.
Qed.

Lemma sum_list_app (l1 l2 : list Z) :
  sum_list (l1 ++ l2) = sum_list l1 + sum_list l2.
Proof.
  induction l1 as [|x l1 IH]; [done|].
  rewrite <- app_comm_cons, !sum_list_cons, IH. lia.
Qed.

(** A non-empty list of names splits into [names[:-1]] and [names[-1]]. *)
Lemma split_last {A} (l : list A) :
  l ≠ [] → ∃ x, last_item l = Some x ∧ l = all_but_last l ++ [x].
Proof.
  intros Hl. destruct (last l) as [x|] eqn:Hx.
  - exists x. split; [done|]. apply last_Some in Hx as [l' ->].
    unfold all_but_last. by rewrite removelast_last.
  - by apply last_None in Hx.
Qed.

(** The shape of the default allocation: [floor(100/N)] for every participant
    but the last, and the whole remainder of the division on top of it for
    the last. *)
Lemma default_shares_shape (participants : list (string * string)) :
  NoDup participants.*1 → participants ≠ [] →
  let n := Z.of_nat (length participants) in
  ∃ shares last_name,
    default_shares participants = Some shares
    ∧ last_item participants.*1 = Some last_name
    ∧ shares !! last_name = Some (100 `div` n + 100 `mod` n)
    ∧ (∀ name, name ∈ participants.*1 → name ≠ last_name →
         shares !! name = Some (100 `div` n))
    ∧ (∀ name, name ∉ participants.*1 → shares !! name = None).
Proof.
  intros Hnd Hne n.
  assert (Hn : 0 < n) by (subst n; destruct participants; [done | simpl; lia]).
  destruct (split_last participants.*1) as (x & Hlast & Hsplit).
  { by destruct participants. }
  unfold default_shares. fold n. rewrite decide_False by lia.
  rewrite Hlast. simpl. eexists _, x. split; [done|]. split; [done|].
  split; [|split].
  - rewrite lookup_insert_eq. f_equal.
    pose proof (Z.div_mod 100 n). lia.
  - intros name Hin Hx. rewrite lookup_insert_ne by done.
    rewrite dict_of_names_lookup. rewrite decide_True; [done|].
    rewrite Hsplit in Hin. apply elem_of_app in Hin as [Hin|Hin]; [done|].
    by apply list_elem_of_singleton in Hin.
  - intros name Hnin. rewrite Hsplit in Hnin.
    apply not_elem_of_app in Hnin as [Hinit Hx].
    rewrite lookup_insert_ne by (intros ->; apply Hx; by left).
    rewrite dict_of_names_lookup. by rewrite decide_False.
Qed.

(** C2, as stated, fails for seven participants: the first six get 14 and the
    last gets 16. *)
Lemma default_shares_seven_uneven : ¬ evenly_allocated seven_participants.
Proof.
  intros (shares & Hdef & _ & _ & Heven).
  vm_compute in Hdef. injection Hdef as <-.
  specialize (Heven "a" "g" 14 16 eq_refl eq_refl). lia.
Qed.

(** C2 (amended): for N ≥ 1 participants the default allocation gives every
    participant a non-negative integer percent, the shares sum to exactly
    100, every participant but the last gets floor(100/N) and the last gets
    floor(100/N) + (100 mod N); so two shares differ by at most 100 mod N. *)
Theorem default_shares_sum_100 (participants : list (string * string)) :
  NoDup participants.*1 → (1 ≤ length participants)%nat →
  let n := Z.of_nat (length participants) in
  ∃ shares last_name,
    default_shares participants = Some shares
    ∧ last_item participants.*1 = Some last_name
    ∧ (∀ name, name ∈ participants.*1 → ∃ v, shares !! name = Some v ∧ 0 ≤ v)
    ∧ total_share shares participants.*1 = 100
    ∧ shares !! last_name = Some (100 `div` n + 100 `mod` n)
    ∧ (∀ name, name ∈ participants.*1 → name ≠ last_name →
         shares !! name = Some (100 `div` n))
    ∧ (∀ a b va vb, shares !! a = Some va → shares !! b = Some vb →
         Z.abs (va - vb) ≤ 100 `mod` n).
Proof.
  intros Hnd Hlen n.
  assert (Hne : participants ≠ []) by (intros ->; simpl in Hlen; lia).
  assert (Hn : 0 < n) by (subst n; lia).
  destruct (default_shares_shape participants Hnd Hne)
    as (shares & x & Hdef & Hlast & Hx & Hothers & Hnone).
  fold n in Hx, Hothers.
  pose proof (Z.div_pos 100 n ltac:(lia) Hn) as Hq.
  pose proof (Z.mod_pos_bound 100 n Hn) as Hr.
  assert (Hall : ∀ name v, shares !! name = Some v →
            v = 100 `div` n ∨ v = 100 `div` n + 100 `mod` n).
  { intros name v Hv. destruct (decide (name ∈ participants.*1)) as [Hin|Hnin].
    - destruct (decide (name = x)) as [->|Hneq].
      + right. congruence.
      + left. rewrite (Hothers name Hin Hneq) in Hv. congruence.
    - rewrite (Hnone name Hnin) in Hv. done. }
  exists shares, x. repeat split; try done.
  - intros name Hin. destruct (decide (name = x)) as [->|Hneq].
    + eexists. split; [done | lia].
    + eexists. split; [by apply Hothers | lia].
  - destruct (split_last participants.*1) as (x' & Hlast' & Hsplit).
    { by destruct participants. }
    assert (x' = x) as -> by congruence.
    rewrite Hsplit in Hnd. apply NoDup_app in Hnd as (_ & Hdisj & _).
    pose proof (f_equal length Hsplit) as Hl.
    rewrite length_app, length_fmap in Hl. simpl in Hl.
    unfold total_share. rewrite Hsplit.
    rewrite fmap_app, sum_list_app.
    rewrite (sum_list_const _ (100 `div` n)).
    + cbn. rewrite Hx. cbn.
      assert (Z.of_nat (length (all_but_last participants.*1)) = n - 1) as ->
        by (subst n; lia).
      pose proof (Z.div_mod 100 n). lia.
    + intros y Hy. rewrite Hothers; [done | |].
      * rewrite Hsplit. apply elem_of_app. by left.
      * intros ->. apply (Hdisj x Hy). by left.
  - intros a b va vb Ha Hb.
    destruct (Hall a va Ha), (Hall b vb Hb); lia.
Qed.

Lemma default_shares_sum_100_witness :
  ∃ shares last_name,
    default_shares seven_participants = Some shares
    ∧ last_item seven_participants.*1 = Some last_name
    ∧ (∀ name, name ∈ seven_participants.*1 → ∃ v, shares !! name = Some v ∧ 0 ≤ v)
    ∧ total_share shares seven_participants.*1 = 100
    ∧ shares !! last_name = Some (100 `div` 7 + 100 `mod` 7)
    ∧ (∀ name, name ∈ seven_participants.*1 → name ≠ last_name →
         shares !! name = Some (100 `div` 7))
    ∧ (∀ a b va vb, shares !! a = Some va → shares !! b = Some vb →
         Z.abs (va - vb) ≤ 100 `mod` 7).
Proof.
  apply (default_shares_sum_100 seven_participants).
  - apply (bool_decide_unpack (NoDup _)). vm_compute. exact I.
  - simpl. lia.
Defined.

End DefaultShares.

(** ** Conversion of the shares to weights *)

Section Weights.

Import ShareAllocator.

Lemma paid_for_of_present (shares : gmap string Z)
    (participants : list (string * string)) :
  (∀ name, name ∈ participants.*1 → is_Some (shares !! name)) →
  paid_for_of shares participants = Some (weight_of shares <$> participants).
Proof.
  intros Hall. unfold paid_for_of. apply mapM_Some_2.
  induction participants as [|[name pid] rest IH]; [constructor|].
  rewrite fmap_cons. constructor.
  - destruct (Hall name) as [v Hv]; [by left|].
    unfold weight_of. simpl. by rewrite Hv.
  - apply IH. intros y Hy. apply Hall. by right.
Qed.

Lemma weights_total (shares : gmap string Z)
    (participants : list (string * string)) :
  sum_list (weight_of shares <$> participants).*2
  = 100 * total_share shares participants.*1.
Proof.
  unfold total_share.
  induction participants as [|[name pid] rest IH]; [done|].
  rewrite !fmap_cons, !sum_list_cons, IH. simpl. lia.
Qed.

Lemma assoc_lookup_is_Some {A} (key : string) (d : list (string * A)) :
  key ∈ d.*1 → is_Some (assoc_lookup key d).
Proof.
  induction d as [|[k v] d IH]; intros Hin.
  - by apply elem_of_nil in Hin.
  - simpl. case_decide; [by eexists|]. apply IH.
    rewrite fmap_cons in Hin. apply elem_of_cons in Hin as [->|Hin]; done.
Qed.

(** C5: for a share map that gives every participant of the group an integer
    percent in [0,100] and sums to exactly 100, [get_participant_info] returns
    for each participant, in order, the weight percent × 100, and the weights
    sum to exactly 10000. *)
Theorem weights_sum_10000 (participants : list (string * string))
    (shares : gmap string Z) (selected : string) :
  selected ∈ participants.*1 →
  (∀ name, name ∈ participants.*1 →
     ∃ v, shares !! name = Some v ∧ 0 ≤ v ≤ 100) →
  total_share shares participants.*1 = 100 →
  ∃ payer_id paid_for,
    get_participant_info participants shares selected = Some (payer_id, paid_for)
    ∧ Forall2 (λ entry w, w.1 = entry.2
                 ∧ ∃ v, shares !! entry.1 = Some v ∧ w.2 = v * 100)
        participants paid_for
    ∧ sum_list paid_for.*2 = 10000.
Proof.
  intros Hsel Hrange Htotal.
  destruct (assoc_lookup_is_Some selected participants Hsel) as [payer Hpayer].
  assert (Hpresent : ∀ name, name ∈ participants.*1 → is_Some (shares !! name)).
  { intros name Hin. destruct (Hrange name Hin) as (v & Hv & _). by eexists. }
  pose proof (paid_for_of_present shares participants Hpresent) as Hpaid.
  exists payer, (weight_of shares <$> participants).
  split; [|split].
  - unfold get_participant_info. rewrite Hpayer, Hpaid. done.
  - apply mapM_Some_1 in Hpaid. eapply Forall2_impl; [exact Hpaid|].
    intros [name pid] [pid' w]. simpl.
    destruct (shares !! name) as [v|] eqn:Hv; simpl; [|done].
    intros [= <- <-]. split; [done|]. by exists v.
  - rewrite weights_total, Htotal. done.
Qed.

Lemma weights_sum_10000_witness :
  ∃ payer_id paid_for,
    get_participant_info two_participants shares_60_40 "ann"
    = Some (payer_id, paid_for)
    ∧ Forall2 (λ entry w, w.1 = entry.2
                 ∧ ∃ v, shares_60_40 !! entry.1 = Some v ∧ w.2 = v * 100)
        two_participants paid_for
    ∧ sum_list paid_for.*2 = 10000.
Proof.
  apply (weights_sum_10000 two_participants shares_60_40 "ann").
  - vm_compute. by left.
  - intros name Hin. vm_compute in Hin.
    apply elem_of_cons in Hin as [->|Hin].
    + exists 60. split; [reflexivity | lia].
    + apply list_elem_of_singleton in Hin as ->.
      exists 40. split; [reflexivity | lia].
  - reflexivity.
Defined.

Example get_participant_info_60_40 :
  get_participant_info two_participants shares_60_40 "ann"
  = Some ("p1", [("p1", 6000); ("p2", 4000)]).
Proof. reflexivity. Qed.

End Weights.

(** ** Normalisation of statement entries *)

Section Normalisation.

Import StatementFetcher.

Lemma normalized_amount_quotient (s : statement) :
  (normalized_amount s
   == inject_Z (Z.abs (default 0%Z (s_amount s))) / inject_Z 100)%Q.
Proof.
  unfold normalized_amount, Qeq, Qdiv, Qmult, Qinv, inject_Z. simpl. lia.
Qed.

Lemma normalized_amount_sign (s : statement) :
  (0 <= normalized_amount s)%Q
  ∧ ((0 < normalized_amount s)%Q ↔ default 0 (s_amount s) ≠ 0).
Proof.
  unfold normalized_amount, Qle, Qlt. simpl. lia.
Qed.

(** C4, as stated, fails for an entry whose amount is 0: its normalised
    amount is 0, which is not strictly positive. *)
Lemma normalized_amount_zero_entry :
  ¬ amount_normalised_positive ∅ (entry_of_amount 0).
Proof.
  intros (q & Hq & _ & Hpos). simpl in Hq. injection Hq as <-.
  revert Hpos. unfold normalized_amount, Qlt. simpl. lia.
Qed.

(** C4 (amended): for every raw statement entry of any sign, the normalised
    transaction amount equals abs(raw.amount)/100 and is never negative; it is
    strictly greater than 0 exactly when the raw amount is not 0. *)
Theorem normalized_amount_abs (mcc_codes : gmap string string) (s : statement) :
  ∃ q, t_amount (normalize mcc_codes s) = Some q
       ∧ (q == inject_Z (Z.abs (default 0%Z (s_amount s))) / inject_Z 100)%Q
       ∧ (0 <= q)%Q
       ∧ ((0 < q)%Q ↔ default 0 (s_amount s) ≠ 0).
Proof.
  exists (normalized_amount s). split; [done|].
  split; [apply normalized_amount_quotient | apply normalized_amount_sign].
Qed.

(** A debit of 15000 minor units is stored as 150.00. *)
Example normalized_amount_debit :
  ∃ q, t_amount (normalize ∅ (entry_of_amount (-15000))) = Some q
       ∧ (q == 150)%Q ∧ (0 < q)%Q.
Proof. eexists. split; [reflexivity|]. split; reflexivity. Qed.

Example normalize_debit :
  normalize (<["5814" := "Fast Food Restaurants"]> ∅) (entry_of_amount (-15000))
  = {| t_id := Some "ZuHWzqkKGVo=";
       t_amount := Some (15000 # 100);
       t_name := Some "Coffee";
       t_mcc := Some "5814";
       t_category := Some "Fast Food Restaurants";
       t_selected := Some false;
       t_date := Some (DateTime 1700000000) |}.
Proof. reflexivity. Qed.

End Normalisation.

(** ** The statement fetch loop *)

Section FetchLoop.

Import StatementFetcher.

Variable mcc_codes : gmap string string.
Variable get_statements : bank.
Variables start_date end_date : Z.

(** One rate-limit signal leaves the loop where it was, five seconds later. *)
Lemma loop_body_rate_limited (st : loop_state) :
  get_statements (length (calls st)) (next_window start_date st).1
                 (next_window start_date st).2 = TooManyRequests →
  loop_body get_statements start_date end_date st
  = Continue (after_retries start_date 1 st).
Proof.
  intros Hrl. unfold loop_body. simpl in Hrl. rewrite Hrl.
  unfold after_retries, next_window. simpl. do 2 f_equal.
Qed.

Lemma after_retries_S (n : nat) (st : loop_state) :
  after_retries start_date n (after_retries start_date 1 st)
  = after_retries start_date (S n) st.
Proof.
  unfold after_retries, next_window. simpl. f_equal.
  - by rewrite <- app_assoc.
  - lia.
Qed.

Lemma fetch_loop_rate_limited (n : nat) : ∀ (st : loop_state) (fuel : nat),
  (∀ k, (k < n)%nat →
     get_statements (length (calls st) + k)%nat (next_window start_date st).1
                    (next_window start_date st).2 = TooManyRequests) →
  fetch_loop get_statements start_date end_date (n + fuel)%nat st
  = fetch_loop get_statements start_date end_date fuel
      (after_retries start_date n st).
Proof.
  induction n as [|n IH]; intros st fuel Hrl.
  - simpl. f_equal. destruct st. unfold after_retries. simpl.
    f_equal; [by rewrite app_nil_r | lia].
  - cbn [Nat.add fetch_loop].
    rewrite loop_body_rate_limited.
    2:{ specialize (Hrl 0%nat ltac:(lia)). by rewrite Nat.add_0_r in Hrl. }
    rewrite IH; [by rewrite after_retries_S|].
    intros k Hk. specialize (Hrl (S k) ltac:(lia)).
    unfold after_retries at 1. simpl. rewrite length_app. simpl.
    replace (length (calls st) + 1 + k)%nat with (length (calls st) + S k)%nat by lia.
    exact Hrl.
Qed.

(** C8: while the bank answers "too many requests", every call is followed
    by a 5 second wait and a call for the same window; this goes on for any
    number [n] of signals: after [n] of them the loop is still running (no
    result, no failure), the window, the statements gathered and the messages
    are as before, and [5 * n] seconds were spent waiting.  The loop then
    goes on from that state as it would have without the signals. *)
Theorem rate_limit_retried_without_bound (n : nat) (st : loop_state) :
  (∀ k, (k < n)%nat →
     get_statements (length (calls st) + k)%nat (next_window start_date st).1
                    (next_window start_date st).2 = TooManyRequests) →
  fetch_loop get_statements start_date end_date n st = None
  ∧ (∀ fuel,
       fetch_loop get_statements start_date end_date (n + fuel)%nat st
       = fetch_loop get_statements start_date end_date fuel
           (after_retries start_date n st))
  ∧ calls (after_retries start_date n st)
    = calls st ++ replicate n (next_window start_date st)
  ∧ next_window start_date (after_retries start_date n st)
    = next_window start_date st
  ∧ slept (after_retries start_date n st) = slept st + 5 * Z.of_nat n
  ∧ all_statements (after_retries start_date n st) = all_statements st
  ∧ errors (after_retries start_date n st) = errors st.
Proof.
  intros Hrl. split; [|split; [|done]].
  - pose proof (fetch_loop_rate_limited n st 0 Hrl) as H.
    rewrite Nat.add_0_r in H. exact H.
  - intros fuel. by apply fetch_loop_rate_limited.
Qed.

(** C7: when the start date is after the end date the handler shows the
    range error and stops: it returns at once (whatever the fuel), no window
    was requested, and the bank plays no part in the result. *)
Theorem invalid_range_no_calls (fuel : nat) :
  start_date > end_date →
  ∃ r, fetch_statements mcc_codes get_statements start_date end_date fuel = Some r
       ∧ r = InvalidRange "Start date must be on or before end date."
       ∧ calls_made r = []
       ∧ ∀ other_bank : bank,
           fetch_statements mcc_codes other_bank start_date end_date fuel = Some r.
Proof.
  intros Hgt. eexists. unfold fetch_statements.
  rewrite !decide_True by done. repeat split; try done.
  intros other. by rewrite decide_True.
Qed.

End FetchLoop.

Lemma rate_limit_retried_without_bound_witness :
  fetch_loop (busy_bank 3 []) 739000 739100 3 (initial_state 739100) = None
  ∧ (∀ fuel,
       fetch_loop (busy_bank 3 []) 739000 739100 (3 + fuel)%nat (initial_state 739100)
       = fetch_loop (busy_bank 3 []) 739000 739100 fuel
           (after_retries 739000 3 (initial_state 739100)))
  ∧ calls (after_retries 739000 3 (initial_state 739100))
    = calls (initial_state 739100)
      ++ replicate 3 (next_window 739000 (initial_state 739100))
  ∧ next_window 739000 (after_retries 739000 3 (initial_state 739100))
    = next_window 739000 (initial_state 739100)
  ∧ slept (after_retries 739000 3 (initial_state 739100))
    = slept (initial_state 739100) + 5 * Z.of_nat 3
  ∧ all_statements (after_retries 739000 3 (initial_state 739100))
    = all_statements (initial_state 739100)
  ∧ errors (after_retries 739000 3 (initial_state 739100))
    = errors (initial_state 739100).
Proof.
  apply (rate_limit_retried_without_bound (busy_bank 3 []) 739000 739100 3
           (initial_state 739100)).
  intros k Hk. unfold busy_bank. simpl.
  destruct (Nat.ltb_spec k 3); [reflexivity | lia].
Defined.

Lemma invalid_range_no_calls_witness :
  ∃ r, fetch_statements ∅ quiet_bank 739100 739000 0 = Some r
       ∧ r = InvalidRange "Start date must be on or before end date."
       ∧ calls_made r = []
       ∧ ∀ other_bank : bank,
           fetch_statements ∅ other_bank 739100 739000 0 = Some r.
Proof.
  apply (invalid_range_no_calls ∅ quiet_bank 739100 739000 0). lia.
Defined.

(** ** A range of a single day *)

Section OneDay.

Import StatementFetcher.

Variable mcc_codes : gmap string string.
Variable get_statements : bank.
Variable day : Z.

Lemma next_window_one_day (st : loop_state) :
  current_to_date st = day → next_window day st = (day, day).
Proof. intros Hto. unfold next_window. rewrite Hto. f_equal. lia. Qed.

(** The iteration in which the call for the single day is answered. *)
Lemma loop_body_one_day (st : loop_state) (statements : list statement) :
  current_to_date st = day →
  get_statements (length (calls st)) day day = Statements statements →
  loop_body get_statements day day st
  = Break ChunkError
      {| current_to_date := day;
         all_statements := all_statements st ++ statements;
         calls := calls st ++ [(day, day)];
         slept := slept st;
         progress := progress st;
         errors := errors st ++ ["Error fetching chunk: division by zero"] |}.
Proof.
  intros Hto Hcall. unfold loop_body. rewrite Hto.
  replace (Z.max day (day - 30)) with day by lia.
  rewrite Hcall. rewrite decide_True by lia. done.
Qed.

(** C10: for a range of a single day, once the call for that day is answered
    (after any number [n] of rate-limit signals), the loop is left through
    the generic error branch, with the division by zero as its message, and
    not through the test on the start date; the statements of that call are
    kept and normalised. *)
Theorem one_day_range_leaves_by_error (n fuel : nat) (statements : list statement) :
  (∀ k, (k < n)%nat → get_statements k day day = TooManyRequests) →
  get_statements n day day = Statements statements →
  (n < fuel)%nat →
  ∃ st,
    fetch_statements mcc_codes get_statements day day fuel
    = Some (Fetched ChunkError st (normalize mcc_codes <$> statements))
    ∧ all_statements st = statements
    ∧ calls st = replicate (S n) (day, day)
    ∧ errors st = ["Error fetching chunk: division by zero"].
Proof.
  intros Hrl Hok Hfuel.
  unfold fetch_statements. rewrite decide_False by lia.
  replace fuel with (n + S (fuel - S n))%nat by lia.
  rewrite fetch_loop_rate_limited.
  2:{ intros k Hk. rewrite next_window_one_day by done. simpl. by apply Hrl. }
  cbn [fetch_loop].
  rewrite (loop_body_one_day _ statements).
  - unfold after_retries. rewrite next_window_one_day by done. simpl.
    eexists. split; [done|]. split; [done|]. split; [|done].
    simpl. by rewrite <- replicate_S_end.
  - done.
  - simpl. rewrite next_window_one_day by done.
    rewrite length_replicate. exact Hok.
Qed.

End OneDay.

Lemma one_day_range_leaves_by_error_witness :
  ∃ st,
    fetch_statements ∅ (busy_bank 2 [entry_of_amount (-15000)]) 739000 739000 3
    = Some (Fetched ChunkError st (normalize ∅ <$> [entry_of_amount (-15000)]))
    ∧ all_statements st = [entry_of_amount (-15000)]
    ∧ calls st = replicate 3 (739000, 739000)
    ∧ errors st = ["Error fetching chunk: division by zero"].
Proof.
  apply (one_day_range_leaves_by_error ∅ (busy_bank 2 [entry_of_amount (-15000)])
           739000 2 3 [entry_of_amount (-15000)]).
  - intros k Hk. unfold busy_bank.
    destruct (Nat.ltb_spec k 2); [reflexivity | lia].
  - reflexivity.
  - lia.
Defined.

(** ** Windows requested over a range *)

Section Chained.

Lemma chained_bounds (start hi : Z) (ws : list (Z * Z)) :
  chained start hi ws → ∀ w, w ∈ ws → start ≤ w.1 ∧ w.1 ≤ w.2 ∧ w.2 ≤ hi.
Proof.
  induction 1 as [hi Hle | lo hi ws Hlo Hhi Hch IH]; intros w Hw.
  - apply list_elem_of_singleton in Hw as ->. simpl. lia.
  - apply elem_of_cons in Hw as [->|Hw]; [simpl; lia|].
    specialize (IH w Hw). lia.
Qed.

Lemma chained_cover (start hi : Z) (ws : list (Z * Z)) :
  chained start hi ws →
  ∀ d, start ≤ d ≤ hi ↔ ∃ w, w ∈ ws ∧ in_window d w.
Proof.
  induction 1 as [hi Hle | lo hi ws Hlo Hhi Hch IH]; intros d; split.
  - intros Hd. exists (start, hi). split; [by left | exact Hd].
  - intros (w & Hw & Hd). apply list_elem_of_singleton in Hw as ->. exact Hd.
  - intros Hd. destruct (decide (lo ≤ d)) as [Hin|Hout].
    + exists (lo, hi). split; [by left|]. unfold in_window. simpl. lia.
    + destruct (proj1 (IH d)) as (w & Hw & Hdw); [lia|].
      exists w. split; [by right | done].
  - intros (w & Hw & Hd). apply elem_of_cons in Hw as [->|Hw].
    + unfold in_window in Hd. simpl in Hd. lia.
    + pose proof (proj2 (IH d) (ex_intro _ w (conj Hw Hd))). lia.
Qed.

Lemma chained_disjoint (start hi : Z) (ws : list (Z * Z)) :
  chained start hi ws →
  ∀ (i j : nat) wi wj d,
    ws !! i = Some wi → ws !! j = Some wj →
    in_window d wi → in_window d wj → i = j.
Proof.
  induction 1 as [hi Hle | lo hi ws Hlo Hhi Hch IH]; intros i j wi wj d Hi Hj Hdi Hdj.
  - destruct i as [|i], j as [|j]; try done.
  - pose proof (chained_bounds _ _ _ Hch) as Hb.
    destruct i as [|i], j as [|j]; [done | | |].
    + simpl in Hi, Hj. injection Hi as <-.
      apply list_elem_of_lookup_2 in Hj. specialize (Hb wj Hj).
      unfold in_window in *. simpl in *. lia.
    + simpl in Hi, Hj. injection Hj as <-.
      apply list_elem_of_lookup_2 in Hi. specialize (Hb wi Hi).
      unfold in_window in *. simpl in *. lia.
    + f_equal. by apply (IH i j wi wj d).
Qed.

End Chained.

Section Coverage.

Import StatementFetcher.

Variable mcc_codes : gmap string string.
Variable get_statements : bank.
Variables start_date end_date : Z.

(** Every call is answered with statements. *)
Hypothesis answered : ∀ k from to, ∃ l, get_statements k from to = Statements l.

(** From a cursor that is [31 * k] to [31 * k + 30] days after the start
    date, the loop makes [k + 1] calls and leaves by the test on the start
    date. *)
Lemma fetch_loop_answered (k : nat) : ∀ (st : loop_state) (fuel : nat),
  start_date < end_date →
  31 * Z.of_nat k ≤ current_to_date st - start_date < 31 * (Z.of_nat k + 1) →
  (k < fuel)%nat →
  ∃ st' ws,
    fetch_loop get_statements start_date end_date fuel st = Some (ReachedStart, st')
    ∧ calls st' = calls st ++ ws
    ∧ length ws = S k
    ∧ chained start_date (current_to_date st) ws
    ∧ (∀ w, w ∈ ws → w.2 - w.1 ≤ 30)
    ∧ errors st' = errors st.
Proof.
  induction k as [|k IH]; intros st fuel Hrange Hcur Hfuel;
    (destruct fuel as [|fuel]; [lia|]); cbn [fetch_loop]; unfold loop_body;
    destruct (answered (length (calls st))
                (Z.max start_date (current_to_date st - 30))
                (current_to_date st)) as [l ->];
    rewrite (decide_False (P := end_date - start_date = 0)) by lia.
  - replace (Z.max start_date (current_to_date st - 30)) with start_date by lia.
    rewrite decide_True by lia.
    eexists _, [(start_date, current_to_date st)]. simpl.
    repeat split; try done.
    + constructor. lia.
    + intros w Hw. apply list_elem_of_singleton in Hw as ->. simpl. lia.
  - replace (Z.max start_date (current_to_date st - 30))
      with (current_to_date st - 30) by lia.
    rewrite decide_False by lia.
    match goal with
    | |- context [fetch_loop _ _ _ fuel ?next] =>
        destruct (IH next fuel Hrange)
          as (st' & ws & Hloop & Hcalls & Hlen & Hch & Hspan & Herr);
          [simpl; lia | lia | rewrite Hloop]
    end.
    simpl in *. exists st', ((current_to_date st - 30, current_to_date st) :: ws).
    split; [done|]. split; [by rewrite Hcalls, <- app_assoc|].
    split; [simpl; lia|]. split; [|split; [|done]].
    + constructor; [lia | lia | exact Hch].
    + intros w Hw. apply elem_of_cons in Hw as [->|Hw]; [simpl; lia | by apply Hspan].
Qed.

(** C3 (amended): for a valid range of R = end − start + 1 days, when every
    call is answered with statements, the loop issues exactly ceil(R/31)
    calls; every requested window spans at most 31 days, and the windows
    cover the dates from start to end with no gap and no date in two
    windows. *)
Theorem fetch_windows_tile_range (fuel : nat) :
  start_date ≤ end_date →
  (Z.to_nat ((end_date - start_date) `div` 31) < fuel)%nat →
  ∃ how st transactions,
    fetch_statements mcc_codes get_statements start_date end_date fuel
    = Some (Fetched how st transactions)
    ∧ Z.of_nat (length (calls st)) = ceil_div (end_date - start_date + 1) 31
    ∧ (∀ w, w ∈ calls st → w.2 - w.1 ≤ 30)
    ∧ (∀ d, start_date ≤ d ≤ end_date ↔ ∃ w, w ∈ calls st ∧ in_window d w)
    ∧ (∀ (i j : nat) wi wj d,
         calls st !! i = Some wi → calls st !! j = Some wj →
         in_window d wi → in_window d wj → i = j).
Proof.
  intros Hle Hfuel. unfold fetch_statements. rewrite decide_False by lia.
  assert (Hceil : ceil_div (end_date - start_date + 1) 31
                  = (end_date - start_date) `div` 31 + 1).
  { unfold ceil_div.
    replace (end_date - start_date + 1 + 31 - 1)
      with (end_date - start_date + 1 * 31) by lia.
    by rewrite Z.div_add. }
  destruct (decide (start_date = end_date)) as [<-|Hne].
  - destruct fuel as [|fuel]; [lia|]. cbn [fetch_loop].
    destruct (answered 0 start_date start_date) as [l Hl].
    rewrite (loop_body_one_day get_statements start_date _ l); [|done|done].
    simpl. eexists _, _, _. split; [done|]. simpl.
    assert (Hch : chained start_date start_date [(start_date, start_date)])
      by (constructor; lia).
    split; [|split; [|split]].
    + rewrite Hceil, Z.sub_diag. done.
    + intros w Hw. apply list_elem_of_singleton in Hw as ->. simpl. lia.
    + by apply chained_cover.
    + by apply chained_disjoint with (start := start_date) (hi := start_date).
  - pose proof (Z.div_mod (end_date - start_date) 31 ltac:(lia)) as Hdm.
    pose proof (Z.mod_pos_bound (end_date - start_date) 31 ltac:(lia)) as Hmod.
    assert (Hq : 0 ≤ (end_date - start_date) `div` 31)
      by (apply Z.div_pos; lia).
    destruct (fetch_loop_answered (Z.to_nat ((end_date - start_date) `div` 31))
                (initial_state end_date) fuel)
      as (st' & ws & Hloop & Hcalls & Hlen & Hch & Hspan & _);
      [lia | simpl; lia | done |].
    rewrite Hloop. simpl in Hcalls, Hch. simpl.
    eexists _, st', _. split; [done|]. rewrite Hcalls.
    split; [|split; [|split]].
    + rewrite Hlen, Hceil. lia.
    + exact Hspan.
    + by apply chained_cover.
    + by apply chained_disjoint with (start := start_date) (hi := end_date).
Qed.

End Coverage.

(** C3, as stated, fails for a range whose end is 61 days after its start
    (62 calendar days): two calls are issued, for two windows of 31 days,
    where ceil(61/30) and ceil(62/30) are both 3. *)
Lemma fetch_calls_not_ceil_over_30 :
  ¬ issues_ceil_over_30 quiet_bank 739000 739061 61
  ∧ ¬ issues_ceil_over_30 quiet_bank 739000 739061 62.
Proof.
  assert (Hrun : ∃ how st transactions,
            fetch_statements ∅ quiet_bank 739000 739061 5
            = Some (Fetched how st transactions)
            ∧ calls st = [(739031, 739061); (739000, 739030)]).
  { eexists _, _, _. split; [vm_compute; reflexivity | reflexivity]. }
  destruct Hrun as (how & st & transactions & Hrun & Hcalls).
  split; intros Hclaim; specialize (Hclaim _ _ _ _ Hrun);
    rewrite Hcalls in Hclaim; vm_compute in Hclaim; discriminate.
Qed.

Lemma fetch_windows_tile_range_witness :
  ∃ how st transactions,
    fetch_statements ∅ quiet_bank 739000 739061 5
    = Some (Fetched how st transactions)
    ∧ Z.of_nat (length (calls st)) = ceil_div (739061 - 739000 + 1) 31
    ∧ (∀ w, w ∈ calls st → w.2 - w.1 ≤ 30)
    ∧ (∀ d, 739000 ≤ d ≤ 739061 ↔ ∃ w, w ∈ calls st ∧ in_window d w)
    ∧ (∀ (i j : nat) wi wj d,
         calls st !! i = Some wi → calls st !! j = Some wj →
         in_window d wi → in_window d wj → i = j).
Proof.
  apply (fetch_windows_tile_range ∅ quiet_bank 739000 739061).
  - intros k from to. eexists. reflexivity.
  - lia.
  - vm_compute. lia.
Defined.

(** ** Uploads *)

Section Uploads.

Import UploadOrchestrator.

Variable today : Z.
Variable spliit : ledger.
Variable payer_id : string.
Variable paid_for : list (string * Z).

(** C9: the request sent for a transaction with a (non-empty) external id
    has as title the description followed by [" mono-"] and the id; without
    an id the title is the description alone. *)
Theorem expense_title_marker (sent : list expense_request)
    (description id : string) (amount : Q) (category : option string)
    (date : option pydate) :
  id ≠ "" →
  (∃ request,
     (upload_transaction_to_spliit today spliit sent payer_id paid_for
        description amount category (Some id) date).2 = sent ++ [request]
     ∧ title request = description +:+ " mono-" +:+ id)
  ∧ (∃ request,
       (upload_transaction_to_spliit today spliit sent payer_id paid_for
          description amount category None date).2 = sent ++ [request]
       ∧ title request = description).
Proof.
  intros Hid. split; eexists; (split; [reflexivity|]); simpl; [|done].
  destruct (String.eqb_spec id ""); done.
Qed.

(** One round of the batch loop for a transaction with a name and an
    amount: one request is sent, and the counter moves exactly when the
    ledger accepted it. *)
Lemma upload_one_sends (st : batch_state) (t : transaction) (request : expense_request) :
  request_for today payer_id paid_for t = Some request →
  ∃ st',
    upload_one today spliit payer_id paid_for st t = inl st'
    ∧ sent st' = sent st ++ [request]
    ∧ success_count st'
      = ((if accepted (spliit (length (sent st)) request) then 1 else 0)
         + success_count st)%nat.
Proof.
  unfold request_for, upload_one, upload_transaction_to_spliit.
  destruct (t_name t) as [name|]; [|done].
  destruct (t_amount t) as [amount|]; [|done].
  simpl. intros [= <-].
  destruct (spliit _ _) as [msg|body]; simpl.
  - eexists. split; [done|]. split; done.
  - destruct (expense_created body) as [[|]|]; simpl;
      eexists; (split; [done|]); split; done.
Qed.

Lemma batch_from_sends (transactions : list transaction) : ∀ st : batch_state,
  Forall (λ t, is_Some (t_name t) ∧ is_Some (t_amount t)) transactions →
  ∃ st' requests,
    batch_from today spliit payer_id paid_for st transactions = inl st'
    ∧ sent st' = sent st ++ requests
    ∧ Forall2 (λ t r, request_for today payer_id paid_for t = Some r)
        transactions requests
    ∧ success_count st'
      = (success_count st + count_accepted spliit (length (sent st)) requests)%nat.
Proof.
  induction transactions as [|t rest IH]; intros st Hall.
  - exists st, []. simpl. rewrite app_nil_r. repeat split; [constructor | lia].
  - apply Forall_cons in Hall as [[[name Hname] [amount Hamount]] Hrest].
    assert (Hreq : ∃ r, request_for today payer_id paid_for t = Some r).
    { unfold request_for. rewrite Hname, Hamount. by eexists. }
    destruct Hreq as [r Hr].
    destruct (upload_one_sends st t r Hr) as (st1 & Hone & Hsent1 & Hcount1).
    destruct (IH st1 Hrest) as (st' & rs & Hbatch & Hsent & Hreqs & Hcount).
    exists st', (r :: rs). cbn [batch_from]. rewrite Hone.
    split; [done|]. split; [by rewrite Hsent, Hsent1, <- app_assoc|].
    split; [by constructor|].
    rewrite Hcount, Hcount1, Hsent1, length_app. cbn [count_accepted length].
    replace (length (sent st) + 1)%nat with (S (length (sent st))) by lia. lia.
Qed.

(** C6: in a batch whose transactions all carry a name and an amount, no
    outcome of a call (an exception, a body that cannot be parsed, a body
    without an expense id) stops the batch: the function returns, one request
    was sent for every transaction, in order, and the counter it returns is
    the number of requests the ledger accepted. *)
Theorem batch_uploads_independent (transactions : list transaction) :
  Forall (λ t, is_Some (t_name t) ∧ is_Some (t_amount t)) transactions →
  ∃ st,
    upload_transactions_batch today spliit payer_id paid_for transactions = inl st
    ∧ Forall2 (λ t r, request_for today payer_id paid_for t = Some r)
        transactions (sent st)
    ∧ length (sent st) = length transactions
    ∧ success_count st = count_accepted spliit 0 (sent st).
Proof.
  intros Hall. unfold upload_transactions_batch.
  destruct (batch_from_sends transactions
              {| success_count := 0; sent := []; shown := [] |} Hall)
    as (st & requests & Hbatch & Hsent & Hreqs & Hcount).
  simpl in Hsent, Hcount. subst requests.
  exists st. split; [done|]. split; [done|]. split; [|done].
  symmetry. by eapply Forall2_length.
Qed.

End Uploads.

Lemma expense_title_marker_witness :
  (∃ request,
     (upload_transaction_to_spliit 739000 accepting_ledger [] "p1" [("p1", 10000)]
        "Coffee" 150 None (Some "12345") None).2 = [] ++ [request]
     ∧ title request = "Coffee" +:+ " mono-" +:+ "12345")
  ∧ (∃ request,
       (upload_transaction_to_spliit 739000 accepting_ledger [] "p1" [("p1", 10000)]
          "Coffee" 150 None None None).2 = [] ++ [request]
       ∧ title request = "Coffee").
Proof.
  apply (expense_title_marker 739000 accepting_ledger "p1" [("p1", 10000)] []
           "Coffee" "12345" 150 None None).
  discriminate.
Defined.

Example expense_title_coffee :
  title (build_request 739000 "p1" [("p1", 10000)] "Coffee" 150 None
           (Some "12345") None)
  = "Coffee mono-12345".
Proof. reflexivity. Qed.

(** An id that is the empty string is treated as no id. *)
Example expense_title_empty_id :
  title (build_request 739000 "p1" [("p1", 10000)] "Coffee" 150 None
           (Some "") None)
  = "Coffee".
Proof. reflexivity. Qed.

Lemma batch_uploads_independent_witness :
  ∃ st,
    upload_transactions_batch 739000 third_call_fails "p1" [("p1", 10000)]
      five_entries = inl st
    ∧ Forall2 (λ t r, request_for 739000 "p1" [("p1", 10000)] t = Some r)
        five_entries (sent st)
    ∧ length (sent st) = length five_entries
    ∧ success_count st = count_accepted third_call_fails 0 (sent st).
Proof.
  apply (batch_uploads_independent 739000 third_call_fails "p1" [("p1", 10000)]
           five_entries).
  unfold five_entries. repeat constructor; simpl; by eexists.
Defined.

(** Five transactions, the third of which fails at the transport level: all
    five are sent, four are counted, one message is shown. *)
Example batch_third_call_fails :
  ∃ st,
    upload_transactions_batch 739000 third_call_fails "p1" [("p1", 10000)]
      five_entries = inl st
    ∧ length (sent st) = 5%nat
    ∧ success_count st = 4%nat
    ∧ shown st = ["Failed to upload transaction 'Tea': Connection aborted."].
Proof. eexists. split; [vm_compute; reflexivity|]. by repeat split. Qed.

(** C1: with shares of 50 and 49 the live sum is 99, and [upload_to_spliit]
    still sends the transaction, with weights 5000 and 4900, and reports
    success. *)
Lemma upload_not_refused_at_99 :
  total_share shares_50_49 two_participants.*1 = 99
  ∧ ∃ request,
      upload_to_spliit 739000 session_99 [manual_entry "Coffee" 150]
      = {| uploaded := true;
           requests := [request];
           messages := ["Successfully uploaded 1 transaction(s) to Spliit."] |}
      ∧ paid_for request = [("p1", 5000); ("p2", 4900)]
      ∧ sum_list (paid_for request).*2 = 9900.
Proof.
  split; [reflexivity|]. eexists. split; [vm_compute; reflexivity|].
  split; reflexivity.
Qed.

(** * Properties of the further parts *)

(** ** Any run of the fetch loop *)

Section LoopRun.

Import StatementFetcher.

Variable get_statements : bank.
Variables start_date end_date : Z.

(** What every finished run of the loop satisfies, whatever the bank
    answers. *)
Lemma fetch_loop_run (fuel : nat) : ∀ (st st' : loop_state) (how : loop_exit),
  start_date ≤ current_to_date st ≤ end_date →
  fetch_loop get_statements start_date end_date fuel st = Some (how, st') →
  ∃ ws,
    calls st' = calls st ++ ws
    ∧ (0 < length ws)%nat
    ∧ (∀ w, w ∈ ws → start_date ≤ w.1 ∧ w.1 ≤ w.2 ∧ w.2 ≤ end_date ∧ w.2 - w.1 ≤ 30)
    ∧ slept st' = slept st + 5 * (Z.of_nat (length ws) - 1)
    ∧ all_statements st'
      = all_statements st ++ gathered_from get_statements (length (calls st)) ws
    ∧ (how = ReachedStart →
         errors st' = errors st
         ∧ ∀ d, start_date ≤ d ≤ current_to_date st →
             ∃ (i : nat) w l,
               calls st' !! i = Some w ∧ in_window d w
               ∧ get_statements i w.1 w.2 = Statements l)
    ∧ (how = ChunkError → ∃ msg, errors st' = errors st ++ [msg]).
Proof.
  induction fuel as [|fuel IH]; intros st st' how Hcur Hrun; [done|].
  cbn [fetch_loop] in Hrun. unfold loop_body in Hrun.
  set (from := Z.max start_date (current_to_date st - 30)) in *.
  assert (Hw : start_date ≤ from ∧ from ≤ current_to_date st
               ∧ current_to_date st - from ≤ 30) by (subst from; lia).
  assert (Hone : ∀ w : Z * Z, w ∈ [(from, current_to_date st)] →
            start_date ≤ w.1 ∧ w.1 ≤ w.2 ∧ w.2 ≤ end_date ∧ w.2 - w.1 ≤ 30).
  { intros w Hin. apply list_elem_of_singleton in Hin as ->. simpl. lia. }
  destruct (get_statements (length (calls st)) from (current_to_date st))
    as [l| |msg] eqn:Hcall.
  - destruct (decide (end_date - start_date = 0)) as [Hzero|Hdays].
    + injection Hrun as <- <-. exists [(from, current_to_date st)]. simpl.
      unfold answer_of. simpl. rewrite Hcall, app_nil_r.
      split; [done|]. split; [lia|]. split; [exact Hone|].
      split; [lia|]. split; [done|]. split; [done|]. by eexists.
    + destruct (decide (from ≤ start_date)) as [Hdone|Hmore].
      * injection Hrun as <- <-. exists [(from, current_to_date st)]. simpl.
        unfold answer_of. simpl. rewrite Hcall, app_nil_r.
        split; [done|]. split; [lia|]. split; [exact Hone|].
        split; [lia|]. split; [done|]. split; [|done].
        intros _. split; [done|].
        intros d Hd. exists (length (calls st)), (from, current_to_date st), l.
        split; [|split; [|done]].
        -- rewrite lookup_app_r, Nat.sub_diag by lia. done.
        -- unfold in_window. simpl. lia.
      * apply IH in Hrun as (ws & Hcalls & Hlen & Hwin & Hslept & Hall & Hok & Herr);
          [|simpl; lia].
        simpl in *. exists ((from, current_to_date st) :: ws).
        split; [by rewrite Hcalls, <- app_assoc|].
        split; [simpl; lia|].
        split; [|split; [|split; [|split]]].
        -- intros w Hin. apply elem_of_cons in Hin as [->|Hin]; [simpl; lia|].
           by apply Hwin.
        -- rewrite Hslept. cbn [length]. lia.
        -- rewrite Hall, length_app. cbn [gathered_from length].
           unfold answer_of at 1. simpl. rewrite Hcall, <- app_assoc.
           do 3 f_equal. lia.
        -- intros Hhow. destruct (Hok Hhow) as [Herrs Hcov]. split; [done|].
           intros d Hd. destruct (decide (from ≤ d)) as [Hin|Hbelow].
           ++ exists (length (calls st)), (from, current_to_date st), l.
              split; [|split; [|done]].
              ** rewrite Hcalls, <- app_assoc, lookup_app_r, Nat.sub_diag by lia. done.
              ** unfold in_window. simpl. lia.
           ++ apply Hcov. lia.
        -- exact Herr.
  - apply IH in Hrun as (ws & Hcalls & Hlen & Hwin & Hslept & Hall & Hok & Herr);
      [|simpl; lia].
    simpl in *. exists ((from, current_to_date st) :: ws).
    split; [by rewrite Hcalls, <- app_assoc|].
    split; [simpl; lia|].
    split; [|split; [|split; [|split]]].
    + intros w Hin. apply elem_of_cons in Hin as [->|Hin]; [simpl; lia|].
      by apply Hwin.
    + rewrite Hslept. cbn [length]. lia.
    + rewrite Hall, length_app. cbn [gathered_from length].
      unfold answer_of at 1. simpl. rewrite Hcall. simpl.
      do 2 f_equal. lia.
    + intros Hhow. destruct (Hok Hhow) as [Herrs Hcov]. split; [done|].
      intros d Hd. by apply Hcov.
    + exact Herr.
  - injection Hrun as <- <-. exists [(from, current_to_date st)]. simpl.
    unfold answer_of. simpl. rewrite Hcall, app_nil_r.
    split; [done|]. split; [lia|]. split; [exact Hone|].
    split; [lia|]. split; [done|]. split; [done|]. by eexists.
Qed.

End LoopRun.

Section FetchedRuns.

Import StatementFetcher.

Variable mcc_codes : gmap string string.
Variable get_statements : bank.
Variables start_date end_date : Z.
Variable fuel : nat.

Lemma fetched_inv (how : loop_exit) (st : loop_state) (fetched : list transaction) :
  fetch_statements mcc_codes get_statements start_date end_date fuel
  = Some (Fetched how st fetched) →
  start_date ≤ end_date
  ∧ fetch_loop get_statements start_date end_date fuel (initial_state end_date)
    = Some (how, st)
  ∧ fetched = normalize mcc_codes <$> all_statements st.
Proof.
  unfold fetch_statements. intros run.
  destruct (decide (start_date > end_date)); [done|].
  destruct (fetch_loop _ _ _ _ _) as [[how' st']|]; [|done].
  simpl in run. injection run as -> -> <-. split; [lia | done].
Qed.

(** Whatever the bank answers (statements, rate-limit signals, failures), the
    handler calls it at least once, and every window it requests lies within
    the range and spans at most 31 days. *)
Theorem fetch_windows_within_range (how : loop_exit) (st : loop_state)
    (fetched : list transaction) :
  fetch_statements mcc_codes get_statements start_date end_date fuel
  = Some (Fetched how st fetched) →
  calls st ≠ []
  ∧ ∀ w, w ∈ calls st →
      start_date ≤ w.1 ∧ w.1 ≤ w.2 ∧ w.2 ≤ end_date ∧ w.2 - w.1 ≤ 30.
Proof.
  intros run. destruct (fetched_inv _ _ _ run) as (Hle & Hloop & _).
  apply fetch_loop_run in Hloop as (ws & Hcalls & Hlen & Hwin & _); [|simpl; lia].
  simpl in Hcalls. subst ws. split; [|done].
  intros Hnil. rewrite Hnil in Hlen. simpl in Hlen. lia.
Qed.

(** Every call but the last is followed by five seconds of sleep, be it the
    cooldown between two windows or the wait after a rate-limit signal: the
    time slept is 5 × (calls − 1). *)
Theorem fetch_sleeps_between_calls (how : loop_exit) (st : loop_state)
    (fetched : list transaction) :
  fetch_statements mcc_codes get_statements start_date end_date fuel
  = Some (Fetched how st fetched) →
  slept st = 5 * (Z.of_nat (length (calls st)) - 1).
Proof.
  intros run. destruct (fetched_inv _ _ _ run) as (Hle & Hloop & _).
  apply fetch_loop_run in Hloop as (ws & Hcalls & _ & _ & Hslept & _); [|simpl; lia].
  simpl in Hcalls, Hslept. by subst ws.
Qed.

(** The transactions stored are the normalised statements of the answered
    calls, in the order of the calls (latest window first), also when the
    loop was left by an error: what was gathered before it is kept. *)
Theorem fetch_keeps_answers_in_call_order (how : loop_exit) (st : loop_state)
    (fetched : list transaction) :
  fetch_statements mcc_codes get_statements start_date end_date fuel
  = Some (Fetched how st fetched) →
  all_statements st = gathered_from get_statements 0 (calls st)
  ∧ fetched = normalize mcc_codes <$> gathered_from get_statements 0 (calls st).
Proof.
  intros run. destruct (fetched_inv _ _ _ run) as (Hle & Hloop & Hfetched).
  apply fetch_loop_run in Hloop as (ws & Hcalls & _ & _ & _ & Hall & _); [|simpl; lia].
  simpl in Hcalls, Hall. subst ws. split; [done | by rewrite Hfetched, Hall].
Qed.

(** A fetch that leaves the loop by the test on the start date showed no
    error, and every date of the range lies in a window whose call was
    answered with statements; a fetch that leaves it by the error branch
    showed exactly one error. *)
Theorem fetch_exit_and_errors (how : loop_exit) (st : loop_state)
    (fetched : list transaction) :
  fetch_statements mcc_codes get_statements start_date end_date fuel
  = Some (Fetched how st fetched) →
  (how = ReachedStart →
     errors st = []
     ∧ ∀ d, start_date ≤ d ≤ end_date →
         ∃ (i : nat) w l,
           calls st !! i = Some w ∧ in_window d w
           ∧ get_statements i w.1 w.2 = Statements l)
  ∧ (how = ChunkError → ∃ msg, errors st = [msg]).
Proof.
  intros run. destruct (fetched_inv _ _ _ run) as (Hle & Hloop & _).
  apply fetch_loop_run in Hloop as (ws & _ & _ & _ & _ & _ & Hok & Herr); [|simpl; lia].
  simpl in Hok, Herr. split; [exact Hok | exact Herr].
Qed.

End FetchedRuns.

Lemma quiet_run :
  fetch_statements ∅ quiet_bank 739000 739061 5
  = Some (Fetched ReachedStart quiet_final []).
Proof. vm_compute. reflexivity. Qed.

(** A range of two windows whose second call fails: the statements of the
    first window are kept and normalised, and one error is shown. *)
Example fetch_partial_result :
  ∃ st,
    fetch_statements ∅ second_call_fails 739000 739061 5
    = Some (Fetched ChunkError st [normalize ∅ (entry_of_amount (-15000))])
    ∧ calls st = [(739031, 739061); (739000, 739030)]
    ∧ errors st = ["Error fetching chunk: Read timed out."].
Proof. eexists. split; [vm_compute; reflexivity|]. by split. Qed.

Lemma fetch_windows_within_range_witness :
  calls quiet_final ≠ []
  ∧ ∀ w, w ∈ calls quiet_final →
      739000 ≤ w.1 ∧ w.1 ≤ w.2 ∧ w.2 ≤ 739061 ∧ w.2 - w.1 ≤ 30.
Proof.
  apply (fetch_windows_within_range ∅ quiet_bank 739000 739061 5
           ReachedStart quiet_final []).
  vm_compute. reflexivity.
Defined.

Lemma fetch_sleeps_between_calls_witness :
  slept quiet_final = 5 * (Z.of_nat (length (calls quiet_final)) - 1).
Proof.
  apply (fetch_sleeps_between_calls ∅ quiet_bank 739000 739061 5
           ReachedStart quiet_final []).
  vm_compute. reflexivity.
Defined.

Lemma fetch_keeps_answers_in_call_order_witness :
  all_statements quiet_final = gathered_from quiet_bank 0 (calls quiet_final)
  ∧ [] = normalize ∅ <$> gathered_from quiet_bank 0 (calls quiet_final).
Proof.
  apply (fetch_keeps_answers_in_call_order ∅ quiet_bank 739000 739061 5
           ReachedStart quiet_final []).
  vm_compute. reflexivity.
Defined.

Lemma fetch_exit_and_errors_witness :
  (ReachedStart = ReachedStart →
     errors quiet_final = []
     ∧ ∀ d, 739000 ≤ d ≤ 739061 →
         ∃ (i : nat) w l,
           calls quiet_final !! i = Some w ∧ in_window d w
           ∧ quiet_bank i w.1 w.2 = Statements l)
  ∧ (ReachedStart = ChunkError → ∃ msg, errors quiet_final = [msg]).
Proof.
  apply (fetch_exit_and_errors ∅ quiet_bank 739000 739061 5
           ReachedStart quiet_final []).
  vm_compute. reflexivity.
Defined.

(** ** The filter of the upload *)

Section Filter.

Import UploadOrchestrator.

Lemma lstrip_has_text (s : string) : has_text (lstrip s) = has_text s.
Proof.
  induction s as [|c s IH]; [done|]. simpl.
  destruct (py_isspace c) eqn:Hc; simpl; [exact IH | by rewrite Hc].
Qed.

Lemma lstrip_empty (s : string) : lstrip s = "" ↔ has_text s = false.
Proof.
  induction s as [|c s IH]; [done|]. simpl.
  destruct (py_isspace c) eqn:Hc; simpl; [exact IH | done].
Qed.

Lemma rev_app_has_text (s1 s2 : string) :
  has_text (String.rev_app s1 s2) = has_text s1 || has_text s2.
Proof.
  revert s2. induction s1 as [|c s1 IH]; intros s2; [done|].
  simpl. rewrite IH. simpl. by destruct (py_isspace c), (has_text s1), (has_text s2).
Qed.

Lemma rev_has_text (s : string) : has_text (String.rev s) = has_text s.
Proof. unfold String.rev. rewrite rev_app_has_text. simpl. apply orb_false_r. Qed.

Lemma rev_app_empty (s1 s2 : string) :
  String.rev_app s1 s2 = "" → s1 = "" ∧ s2 = "".
Proof.
  revert s2. induction s1 as [|c s1 IH]; intros s2 H; [done|].
  simpl in H. by apply IH in H as [_ ?].
Qed.

(** [strip] leaves nothing exactly of the strings made of white space. *)
Lemma strip_empty (s : string) : strip s = "" ↔ has_text s = false.
Proof.
  unfold strip. split.
  - intros H. apply rev_app_empty in H as [H _].
    apply lstrip_empty in H. by rewrite rev_has_text, lstrip_has_text in H.
  - intros H.
    assert (lstrip (String.rev (lstrip s)) = "") as ->; [|done].
    apply lstrip_empty. by rewrite rev_has_text, lstrip_has_text.
Qed.

(** The filter of [upload_to_spliit] keeps exactly the transactions that have
    a name with a character other than white space and an amount above
    zero; a transaction without name or without amount is dropped. *)
Theorem valid_transaction_iff (t : transaction) :
  valid_transaction t = true
  ↔ ∃ name amount,
      t_name t = Some name ∧ has_text name = true
      ∧ t_amount t = Some amount ∧ (0 < amount)%Q.
Proof.
  unfold valid_transaction. rewrite andb_true_iff, !negb_true_iff. split.
  - intros [Hname Hamount].
    apply String.eqb_neq in Hname. rewrite strip_empty in Hname.
    apply not_false_is_true in Hname.
    assert (Hpos : (0 < default 0%Q (t_amount t))%Q).
    { apply Qnot_le_lt. intros Hle. apply Qle_bool_iff in Hle. congruence. }
    destruct (t_name t) as [name|]; [|done].
    destruct (t_amount t) as [amount|]; [|by apply Qlt_irrefl in Hpos].
    by exists name, amount.
  - intros (name & amount & -> & Htext & -> & Hpos). simpl. split.
    + apply String.eqb_neq. rewrite strip_empty. congruence.
    + apply not_true_is_false. intros Hle. apply Qle_bool_iff in Hle.
      by apply Qlt_not_le in Hpos.
Qed.

End Filter.

(** ** The whole upload *)

Section WholeUpload.

Import UploadOrchestrator.

Variable today : Z.

Lemma valid_has_fields (t : transaction) :
  valid_transaction t = true → is_Some (t_name t) ∧ is_Some (t_amount t).
Proof.
  unfold valid_transaction.
  destruct (t_name t), (t_amount t); simpl; intros H; try done.
  by rewrite andb_false_r in H.
Qed.

Lemma filter_valid_fields (l : list transaction) :
  Forall (λ t, is_Some (t_name t) ∧ is_Some (t_amount t))
    (List.filter valid_transaction l).
Proof.
  apply List.Forall_forall. intros t Hin.
  apply List.filter_In in Hin as [_ Hvalid]. by apply valid_has_fields.
Qed.

(** [upload_to_spliit] sends something only when a client is in the
    session, a participant is selected, that participant is in the group,
    every participant of the group has a share, and some transaction passes
    the filter; otherwise no request leaves. *)
Theorem upload_sends_only_when_ready (state : session)
    (transactions_to_upload : list transaction) :
  requests (upload_to_spliit today state transactions_to_upload) ≠ [] →
  ∃ client selected payer_id paid_for,
    spliit_client state = Some client
    ∧ selected_participant state = Some selected
    ∧ selected ≠ ""
    ∧ get_participant_info (participants client) (participant_shares state) selected
      = Some (payer_id, paid_for)
    ∧ List.filter valid_transaction transactions_to_upload ≠ [].
Proof.
  unfold upload_to_spliit.
  destruct (spliit_client state) as [client|]; [|done].
  destruct (selected_participant state) as [selected|]; [|done].
  destruct (String.eqb_spec selected "") as [|Hsel]; [done|].
  destruct (get_participant_info _ _ _) as [[payer_id paid_for]|] eqn:Hinfo;
    [|done].
  destruct (List.filter valid_transaction transactions_to_upload) as [|t l] eqn:Hf;
    [done|].
  intros _. by exists client, selected, payer_id, paid_for.
Qed.

(** In a session that is ready, [upload_to_spliit] sends one request for
    every transaction that passes the filter, in their order, and returns
    [True] exactly when the ledger accepted at least one of them. *)
Theorem upload_sends_the_valid_ones (state : session) (client : client)
    (selected payer_id : string) (paid_for : list (string * Z))
    (transactions_to_upload : list transaction) :
  spliit_client state = Some client →
  selected_participant state = Some selected →
  selected ≠ "" →
  get_participant_info (participants client) (participant_shares state) selected
  = Some (payer_id, paid_for) →
  let outcome := upload_to_spliit today state transactions_to_upload in
  Forall2 (λ t r, request_for today payer_id paid_for t = Some r)
    (List.filter valid_transaction transactions_to_upload) (requests outcome)
  ∧ (uploaded outcome = true
     ↔ (0 < count_accepted (spliit client) 0 (requests outcome))%nat).
Proof.
  intros Hclient Hselected Hne Hinfo. unfold upload_to_spliit.
  rewrite Hclient, Hselected, Hinfo.
  destruct (String.eqb_spec selected "") as [|_]; [done|].
  pose proof (filter_valid_fields transactions_to_upload) as Hfields.
  destruct (List.filter valid_transaction transactions_to_upload) as [|t l].
  - simpl. split; [constructor|]. split; [done | lia].
  - destruct (batch_from_sends today (spliit client) payer_id paid_for (t :: l)
                {| success_count := 0; sent := []; shown := [] |} Hfields)
      as (st & rs & Hbatch & Hsent & Hreqs & Hcount).
    simpl in Hsent, Hcount. subst rs.
    unfold upload_transactions_batch. rewrite Hbatch.
    destruct (decide (0 < success_count st)%nat) as [Hpos|Hzero]; simpl.
    + split; [done|]. split; [lia | done].
    + split; [done|]. split; [done | lia].
Qed.

Lemma int_of_Q_nonneg (a : Q) : (0 < a)%Q → 0 ≤ int_of_Q (a * 100).
Proof.
  unfold Qlt, int_of_Q. destruct a as [n d]. simpl. intros H.
  apply Z.quot_pos; lia.
Qed.

(** Every request [upload_to_spliit] sends names the selected participant's
    id as payer, carries the weights of the share map, and has an amount
    that is not negative. *)
Theorem upload_requests_well_formed (state : session) (client : client)
    (selected payer_id : string) (paid_for : list (string * Z))
    (transactions_to_upload : list transaction) (request : expense_request) :
  spliit_client state = Some client →
  selected_participant state = Some selected →
  get_participant_info (participants client) (participant_shares state) selected
  = Some (payer_id, paid_for) →
  request ∈ requests (upload_to_spliit today state transactions_to_upload) →
  paid_by request = payer_id
  ∧ UploadOrchestrator.paid_for request = paid_for
  ∧ 0 ≤ amount request.
Proof.
  intros Hclient Hselected Hinfo. unfold upload_to_spliit.
  rewrite Hclient, Hselected, Hinfo.
  destruct (String.eqb_spec selected "") as [|_];
    [by intros ?%elem_of_nil|].
  pose proof (filter_valid_fields transactions_to_upload) as Hfields.
  assert (Hvalid : Forall (λ t, valid_transaction t = true)
                     (List.filter valid_transaction transactions_to_upload)).
  { apply List.Forall_forall. intros t Hin. by apply List.filter_In in Hin as [_ ?]. }
  destruct (List.filter valid_transaction transactions_to_upload) as [|t l];
    [by intros ?%elem_of_nil|].
  destruct (batch_from_sends today (spliit client) payer_id paid_for (t :: l)
              {| success_count := 0; sent := []; shown := [] |} Hfields)
    as (st & rs & Hbatch & Hsent & Hreqs & Hcount).
  simpl in Hsent. subst rs.
  unfold upload_transactions_batch. rewrite Hbatch.
  assert (Hgoal : request ∈ sent st →
            paid_by request = payer_id
            ∧ UploadOrchestrator.paid_for request = paid_for
            ∧ 0 ≤ amount request).
  { intros Hin. apply list_elem_of_lookup in Hin as [i Hi].
    destruct (Forall2_lookup_r _ _ _ _ _ Hreqs Hi) as (t' & Ht' & Hreq).
    pose proof (Forall_lookup_1 _ _ _ _ Hvalid Ht') as Hv. simpl in Hv.
    unfold request_for in Hreq. unfold valid_transaction in Hv.
    destruct (t_name t') as [name|]; [|done].
    destruct (t_amount t') as [a|]; [|done].
    simpl in Hreq, Hv. injection Hreq as <-. simpl.
    split; [done|]. split; [done|]. apply int_of_Q_nonneg.
    apply andb_true_iff in Hv as [_ Hv]. apply negb_true_iff in Hv.
    apply Qnot_le_lt. intros Hle. apply Qle_bool_iff in Hle. congruence. }
  destruct (decide (0 < success_count st)%nat); simpl; exact Hgoal.
Qed.

End WholeUpload.

Lemma upload_sends_only_when_ready_witness :
  ∃ client selected payer_id paid_for,
    spliit_client session_60_40 = Some client
    ∧ selected_participant session_60_40 = Some selected
    ∧ selected ≠ ""
    ∧ get_participant_info (participants client)
        (participant_shares session_60_40) selected
      = Some (payer_id, paid_for)
    ∧ List.filter valid_transaction five_entries ≠ [].
Proof.
  apply (upload_sends_only_when_ready 739000 session_60_40 five_entries).
  vm_compute. discriminate.
Defined.

Lemma upload_sends_the_valid_ones_witness :
  Forall2 (λ t r, request_for 739000 "p1" weights_60_40 t = Some r)
    (List.filter valid_transaction five_entries)
    (requests (upload_to_spliit 739000 session_60_40 five_entries))
  ∧ (uploaded (upload_to_spliit 739000 session_60_40 five_entries) = true
     ↔ (0 < count_accepted (spliit client_60_40) 0
              (requests (upload_to_spliit 739000 session_60_40 five_entries)))%nat).
Proof.
  apply (upload_sends_the_valid_ones 739000 session_60_40 client_60_40
           "ann" "p1" weights_60_40 five_entries).
  - reflexivity.
  - reflexivity.
  - discriminate.
  - reflexivity.
Defined.

Lemma upload_requests_well_formed_witness :
  paid_by bread_request = "p1"
  ∧ paid_for bread_request = weights_60_40
  ∧ 0 ≤ amount bread_request.
Proof.
  apply (upload_requests_well_formed 739000 session_60_40 client_60_40
           "ann" "p1" weights_60_40 five_entries bread_request).
  - reflexivity.
  - reflexivity.
  - reflexivity.
  - vm_compute. by left.
Defined.

(** ** The answer of the ledger *)

Section LedgerAnswer.

Import UploadOrchestrator.

(** An upload counts as done exactly when the body decodes to a non-empty
    list whose first item is an object holding, under ["result"], ["data"]
    and ["json"], nested objects, the last of which has a true value under
    ["expenseId"].  Every other body, decodable or not, makes it fail
    without an exception leaving the function. *)
Theorem expense_created_iff (body : option json) :
  expense_created body = Some true
  ↔ ∃ first rest result data fields id,
      body = Some (JArr (JObj first :: rest))
      ∧ assoc_lookup "result" first = Some (JObj result)
      ∧ assoc_lookup "data" result = Some (JObj data)
      ∧ assoc_lookup "json" data = Some (JObj fields)
      ∧ assoc_lookup "expenseId" fields = Some id
      ∧ truthy id = true.
Proof.
  split.
  - unfold expense_created, get_or_empty.
    destruct body as [[| | | |[|[| | | | |first] rest]|]|]; simpl; try done.
    + by destruct b.
    + by destruct (negb _).
    + by destruct (negb _).
    + destruct (assoc_lookup "result" first) as [[| | | | |result]|] eqn:H1;
        simpl; try done.
      destruct (assoc_lookup "data" result) as [[| | | | |data]|] eqn:H2;
        simpl; try done.
      destruct (assoc_lookup "json" data) as [[| | | | |fields]|] eqn:H3;
        simpl; try done.
      destruct (assoc_lookup "expenseId" fields) as [id|] eqn:H4; simpl; [|done].
      intros [= Hid]. by exists first, rest, result, data, fields, id.
    + by destruct fields.
  - intros (first & rest & result & data & fields & id
            & -> & H1 & H2 & H3 & H4 & Hid).
    unfold expense_created, get_or_empty. simpl.
    rewrite H1. simpl. rewrite H2. simpl. rewrite H3. simpl. rewrite H4. simpl.
    by rewrite Hid.
Qed.

End LedgerAnswer.

(** ** A transaction without a name *)

Section MissingName.

Import UploadOrchestrator.

Variable today : Z.
Variable spliit : ledger.
Variable payer_id : string.
Variable paid_for : list (string * Z).

Lemma batch_from_app (pre rest : list transaction) : ∀ st : batch_state,
  batch_from today spliit payer_id paid_for st (pre ++ rest)
  = match batch_from today spliit payer_id paid_for st pre with
    | inl st' => batch_from today spliit payer_id paid_for st' rest
    | inr e => inr e
    end.
Proof.
  induction pre as [|t pre IH]; intros st; [done|].
  cbn [app batch_from].
  destruct (upload_one today spliit payer_id paid_for st t); [apply IH | done].
Qed.

(** A transaction without ["name"] ends [upload_transactions_batch] with a
    [KeyError]: the handler of the loop raises it again while building its
    message.  The transactions before it were sent, it and the ones after it
    are not. *)
Theorem batch_stops_at_missing_name (pre post : list transaction) (t : transaction) :
  Forall (λ t, is_Some (t_name t) ∧ is_Some (t_amount t)) pre →
  t_name t = None →
  ∃ st,
    upload_transactions_batch today spliit payer_id paid_for (pre ++ t :: post)
    = inr ("'name'", st)
    ∧ Forall2 (λ t r, request_for today payer_id paid_for t = Some r) pre (sent st)
    ∧ success_count st = count_accepted spliit 0 (sent st).
Proof.
  intros Hpre Hname. unfold upload_transactions_batch. rewrite batch_from_app.
  destruct (batch_from_sends today spliit payer_id paid_for pre
              {| success_count := 0; sent := []; shown := [] |} Hpre)
    as (st & rs & Hbatch & Hsent & Hreqs & Hcount).
  simpl in Hsent, Hcount. subst rs. rewrite Hbatch.
  exists st. cbn [batch_from]. unfold upload_one. rewrite Hname. done.
Qed.

End MissingName.

Lemma batch_stops_at_missing_name_witness :
  ∃ st,
    upload_transactions_batch 739000 accepting_ledger "p1" weights_60_40
      ([manual_entry "Bread" 30] ++ nameless_entry :: [manual_entry "Milk" 42])
    = inr ("'name'", st)
    ∧ Forall2 (λ t r, request_for 739000 "p1" weights_60_40 t = Some r)
        [manual_entry "Bread" 30] (sent st)
    ∧ success_count st = count_accepted accepting_ledger 0 (sent st).
Proof.
  apply (batch_stops_at_missing_name 739000 accepting_ledger "p1" weights_60_40
           [manual_entry "Bread" 30] [manual_entry "Milk" 42] nameless_entry).
  - repeat constructor; simpl; by eexists.
  - reflexivity.
Defined.

(** ** The participants and their shares *)

Section ParticipantInfo.

Import ShareAllocator.

Lemma paid_for_of_Some (shares : gmap string Z)
    (participants : list (string * string)) (paid_for : list (string * Z)) :
  paid_for_of shares participants = Some paid_for
  ↔ (∀ name, name ∈ participants.*1 → is_Some (shares !! name))
    ∧ paid_for = weight_of shares <$> participants.
Proof.
  split.
  - unfold paid_for_of. intros H. apply mapM_Some_1 in H.
    induction H as [|[name pid] [pid' w] ps pf Hhead Htail IH].
    + split; [by intros ? ?%elem_of_nil | done].
    + simpl in Hhead. destruct (shares !! name) as [v|] eqn:Hv; [|done].
      simpl in Hhead. injection Hhead as <- <-. destruct IH as [IH1 IH2].
      split.
      * intros name' Hin. rewrite fmap_cons in Hin.
        apply elem_of_cons in Hin as [->|Hin]; [by eexists | by apply IH1].
      * rewrite fmap_cons. unfold weight_of at 1. simpl. rewrite Hv. simpl.
        by f_equal.
  - intros [Hall ->]. by apply paid_for_of_present.
Qed.

(** [get_participant_info] succeeds exactly when the selected name is one of
    the participants and every participant has an entry in the share map; a
    missing name or entry is a [KeyError].  Its weights are then the shares
    times 100, in the order of the participants, and sum to 100 times the
    total of the shares, whatever that total is. *)
Theorem get_participant_info_iff (participants : list (string * string))
    (shares : gmap string Z) (selected payer_id : string)
    (paid_for : list (string * Z)) :
  get_participant_info participants shares selected = Some (payer_id, paid_for)
  ↔ assoc_lookup selected participants = Some payer_id
    ∧ (∀ name, name ∈ participants.*1 → is_Some (shares !! name))
    ∧ paid_for = weight_of shares <$> participants
    ∧ sum_list paid_for.*2 = 100 * total_share shares participants.*1.
Proof.
  unfold get_participant_info. split.
  - destruct (assoc_lookup selected participants) as [payer|]; [|done]. simpl.
    destruct (paid_for_of shares participants) as [pf|] eqn:Hpf; [|done]. simpl.
    intros [= -> ->]. apply paid_for_of_Some in Hpf as [Hall ->].
    repeat split; try done. apply weights_total.
  - intros (-> & Hall & -> & _). simpl.
    by rewrite (paid_for_of_present shares participants Hall).
Qed.

(** The initialisation of the shares fails for a group without participants
    (the division by the number of participants); for any other group with
    distinct names every share it stores lies between 0 and 100, the bounds
    of the share inputs, and belongs to a participant. *)
Theorem default_shares_in_range (participants : list (string * string)) :
  NoDup participants.*1 →
  (participants = [] → default_shares participants = None)
  ∧ (participants ≠ [] →
       ∃ shares,
         default_shares participants = Some shares
         ∧ ∀ name v, shares !! name = Some v →
             0 ≤ v ≤ 100 ∧ name ∈ participants.*1).
Proof.
  intros Hnd. split; [by intros ->|]. intros Hne.
  destruct (default_shares_shape participants Hnd Hne)
    as (shares & x & Hdef & Hlast & Hx & Hothers & Hnone).
  set (n := Z.of_nat (length participants)) in *.
  assert (Hn : 0 < n) by (subst n; destruct participants; [done | simpl; lia]).
  pose proof (Z.div_pos 100 n ltac:(lia) Hn) as Hq.
  pose proof (Z.mod_pos_bound 100 n Hn) as Hr.
  pose proof (Z.div_mod 100 n ltac:(lia)) as Hdm.
  assert (Hqn : 100 `div` n ≤ 100) by nia.
  exists shares. split; [done|]. intros name v Hv.
  destruct (decide (name ∈ participants.*1)) as [Hin|Hnin].
  - split; [|done]. destruct (decide (name = x)) as [->|Hneq].
    + rewrite Hx in Hv. injection Hv as <-. nia.
    + rewrite (Hothers name Hin Hneq) in Hv. injection Hv as <-. lia.
  - by rewrite (Hnone name Hnin) in Hv.
Qed.

End ParticipantInfo.

Lemma default_shares_in_range_witness :
  (seven_participants = [] → default_shares seven_participants = None)
  ∧ (seven_participants ≠ [] →
       ∃ shares,
         default_shares seven_participants = Some shares
         ∧ ∀ name v, shares !! name = Some v →
             0 ≤ v ≤ 100 ∧ name ∈ seven_participants.*1).
Proof.
  apply (default_shares_in_range seven_participants).
  apply (bool_decide_unpack (NoDup _)). vm_compute. exact I.
Defined.

(** ** The share editor *)

Section Editor.

Import ShareAllocator ShareEditor.

Lemma list_remove_Some (x : string) (names rest : list string) :
  list_remove x names = Some rest → names ≡ₚ x :: rest.
Proof.
  revert rest. induction names as [|y names IH]; intros rest H; [done|].
  simpl in H. destruct (decide (y = x)) as [->|Hne].
  - by injection H as ->.
  - destruct (list_remove x names) as [rest'|]; [|done].
    simpl in H. injection H as <-.
    rewrite (IH rest' eq_refl). apply Permutation_swap.
Qed.

Lemma list_remove_None (x : string) (names : list string) :
  list_remove x names = None ↔ x ∉ names.
Proof.
  induction names as [|y names IH]; simpl.
  - split; [intros _; apply not_elem_of_nil | done].
  - destruct (decide (y = x)) as [->|Hne].
    + split; [done|]. intros Hnin. exfalso. apply Hnin. by left.
    + destruct (list_remove x names) as [rest|]; simpl.
      * split; [done|]. intros Hnin. apply not_elem_of_cons in Hnin as [_ Hnin].
        by apply IH in Hnin.
      * split; [|done]. intros _. apply not_elem_of_cons.
        split; [done | by apply IH].
Qed.

Lemma sum_list_perm (l1 l2 : list Z) : l1 ≡ₚ l2 → sum_list l1 = sum_list l2.
Proof.
  induction 1 as [|x l1 l2 _ IH|x y l|l1 l2 l3 _ IH1 _ IH2];
    rewrite ?sum_list_cons; [done | by rewrite IH | lia | congruence].
Qed.

Lemma share_inputs_spec (entered : string → Z) (names : list string) :
  ∀ (shares : gmap string Z) (total : Z),
    foldl (λ '(shares, total_share) name,
             (<[name := entered name]> shares, total_share + entered name))
          (shares, total) names
    = (foldl (λ m name, <[name := entered name]> m) shares names,
       total + sum_list (entered <$> names)).
Proof.
  induction names as [|y names IH]; intros shares total.
  - simpl. f_equal. lia.
  - cbn [foldl]. rewrite IH, fmap_cons, sum_list_cons. f_equal. lia.
Qed.

Lemma foldl_entered_lookup (entered : string → Z) (names : list string) :
  ∀ (m : gmap string Z) (x : string),
    foldl (λ m name, <[name := entered name]> m) m names !! x
    = if decide (x ∈ names) then Some (entered x) else m !! x.
Proof.
  induction names as [|y names IH]; intros m x; cbn [foldl].
  - rewrite decide_False; [done | apply not_elem_of_nil].
  - rewrite IH. destruct (decide (x ∈ names)) as [Hin|Hnin].
    + rewrite decide_True; [done | by right].
    + destruct (decide (x = y)) as [->|Hne].
      * rewrite lookup_insert_eq, decide_True; [done | by left].
      * rewrite lookup_insert_ne by done.
        rewrite decide_False; [done | by intros [?|?]%elem_of_cons].
Qed.

(** The share editor fails when the selected name is not a participant (the
    [remove] of the reordering).  Otherwise it stores, for every
    participant, the value of that participant's input, leaves the entries
    of other names as they were, and the total it compares with 100 is the
    total of the shares it stored: the warning is shown exactly when the
    shares of the participants do not sum to 100. *)
Theorem share_editor_total (entered : string → Z) (shares : gmap string Z)
    (participants : list (string * string)) (selected : string) :
  (selected ∉ participants.*1 →
     share_editor entered shares participants selected = None)
  ∧ (selected ∈ participants.*1 →
       ∃ shares' total warned,
         share_editor entered shares participants selected
         = Some (shares', total, warned)
         ∧ (∀ name, name ∈ participants.*1 → shares' !! name = Some (entered name))
         ∧ (∀ name, name ∉ participants.*1 → shares' !! name = shares !! name)
         ∧ total = total_share shares' participants.*1
         ∧ (warned = true ↔ total_share shares' participants.*1 ≠ 100)).
Proof.
  unfold share_editor, selected_first. split.
  - intros Hnin. apply list_remove_None in Hnin. by rewrite Hnin.
  - intros Hin.
    destruct (list_remove selected participants.*1) as [rest|] eqn:Hrem.
    2:{ apply list_remove_None in Hrem. done. }
    apply list_remove_Some in Hrem. simpl.
    unfold share_inputs. rewrite share_inputs_spec.
    set (shares' := foldl _ shares (selected :: rest)).
    assert (Hstored : ∀ name, name ∈ participants.*1 →
              shares' !! name = Some (entered name)).
    { intros name Hname. subst shares'. rewrite foldl_entered_lookup.
      rewrite decide_True; [done | by rewrite <- Hrem]. }
    assert (Htotal : 0 + sum_list (entered <$> selected :: rest)
                     = total_share shares' participants.*1).
    { unfold total_share.
      rewrite (sum_list_perm _ (entered <$> participants.*1))
        by (by rewrite Hrem).
      rewrite Z.add_0_l. f_equal. apply Forall_fmap_ext_1, Forall_forall.
      intros name Hname. by rewrite (Hstored name Hname). }
    eexists _, _, _. split; [done|]. split; [done|]. split; [|split; [done|]].
    + intros name Hname. subst shares'. rewrite foldl_entered_lookup.
      rewrite decide_False; [done | by rewrite <- Hrem].
    + rewrite Htotal. apply bool_decide_eq_true.
Qed.

End Editor.

Lemma share_editor_total_witness :
  ("bob" ∉ two_participants.*1 →
     ShareEditor.share_editor (λ _, 50) ∅ two_participants "bob" = None)
  ∧ ("bob" ∈ two_participants.*1 →
       ∃ shares' total warned,
         ShareEditor.share_editor (λ _, 50) ∅ two_participants "bob"
         = Some (shares', total, warned)
         ∧ (∀ name, name ∈ two_participants.*1 → shares' !! name = Some 50)
         ∧ (∀ name, name ∉ two_participants.*1 →
              shares' !! name = (∅ : gmap string Z) !! name)
         ∧ total = total_share shares' two_participants.*1
         ∧ (warned = true ↔ total_share shares' two_participants.*1 ≠ 100)).
Proof. exact (share_editor_total (λ _, 50) ∅ two_participants "bob"). Defined.

(** ** The upload button *)

Section Button.

Import UploadOrchestrator UploadSection.

Variable today : Z.

(** Without a transaction that passes the filter nothing is sent. *)
Lemma upload_nothing (state : session) (transactions_to_upload : list transaction) :
  List.filter valid_transaction transactions_to_upload = [] →
  uploaded (upload_to_spliit today state transactions_to_upload) = false
  ∧ requests (upload_to_spliit today state transactions_to_upload) = [].
Proof.
  intros Hnone. unfold upload_to_spliit. rewrite Hnone.
  destruct (spliit_client state) as [client|]; [|done].
  destruct (selected_participant state) as [selected|]; [|done].
  destruct (String.eqb selected ""); [done|].
  by destruct (get_participant_info _ _ _) as [[payer_id paid_for]|].
Qed.

Lemma filter_selected_valid (l : list transaction) :
  Forall (λ t, is_selected t = false) l →
  List.filter valid_transaction (List.filter is_selected l) = [].
Proof.
  induction 1 as [|t l Ht _ IH]; [done|]. simpl. by rewrite Ht.
Qed.

(** When the upload of the selected rows returns [True] (at least one of
    them was accepted), the pending list becomes the rows that were not
    selected: every selected row leaves it, also one that was filtered out or
    whose own upload failed.  When it returns [False] the pending list
    stays as it was. *)
Theorem upload_selected_pending (state : session)
    (edited_transactions pending : list transaction) (outcome : upload_outcome) :
  (upload_selected today state true edited_transactions pending).2 = Some outcome →
  outcome = upload_to_spliit today state (List.filter is_selected edited_transactions)
  ∧ (uploaded outcome = true →
       ∀ t, t ∈ (upload_selected today state true edited_transactions pending).1
            ↔ t ∈ edited_transactions ∧ is_selected t = false)
  ∧ (uploaded outcome = false →
       (upload_selected today state true edited_transactions pending).1 = pending).
Proof.
  unfold upload_selected, render_upload_section.
  destruct (uploaded (upload_to_spliit _ _ _)) eqn:Hup; simpl;
    intros [= <-]; rewrite Hup; (split; [done|]); split; try done.
  intros _ t. rewrite list_elem_of_In, List.filter_In, <- list_elem_of_In.
  by rewrite negb_true_iff.
Qed.

(** Rows that come straight from a fetch are not selected, so pressing the
    upload button before selecting any of them sends nothing and leaves the
    pending list as it was, in any session. *)
Theorem fetched_rows_wait_for_selection (mcc_codes : gmap string string)
    (state : session) (pressed : bool)
    (statements : list StatementFetcher.statement) (pending : list transaction) :
  (upload_selected today state pressed
     (normalize mcc_codes <$> statements) pending).1 = pending
  ∧ ∀ outcome,
      (upload_selected today state pressed
         (normalize mcc_codes <$> statements) pending).2 = Some outcome →
      uploaded outcome = false ∧ requests outcome = [].
Proof.
  assert (Hnone : List.filter valid_transaction
                    (List.filter is_selected (normalize mcc_codes <$> statements)) = []).
  { apply filter_selected_valid, Forall_fmap, Forall_forall. done. }
  destruct (upload_nothing state _ Hnone) as [Hup Hreq].
  unfold upload_selected, render_upload_section.
  destruct pressed; [|done]. rewrite Hup. simpl. split; [done|].
  by intros outcome [= <-].
Qed.

(** A fetched row can be uploaded exactly when the raw amount of its
    statement is not 0 and its description (["N/A"] when the statement has
    none) has a character other than white space. *)
Theorem normalized_row_valid_iff (mcc_codes : gmap string string)
    (s : StatementFetcher.statement) :
  valid_transaction (normalize mcc_codes s) = true
  ↔ default 0 (s_amount s) ≠ 0
    ∧ has_text (default "N/A" (s_description s)) = true.
Proof.
  unfold valid_transaction. simpl.
  rewrite andb_true_iff, !negb_true_iff. split.
  - intros [Hname Hamount]. split.
    + intros Hzero. unfold normalized_amount in Hamount. rewrite Hzero in Hamount.
      done.
    + apply String.eqb_neq in Hname. rewrite strip_empty in Hname.
      by apply not_false_is_true.
  - intros [Hamount Hname]. split.
    + apply String.eqb_neq. rewrite strip_empty. congruence.
    + apply not_true_is_false. intros Hle. apply Qle_bool_iff in Hle.
      revert Hle. unfold normalized_amount, Qle. simpl. lia.
Qed.

(** After an upload from the manual tab that returned [True] the editor is
    reset to a single empty row, and that row never passes the filter:
    pressing the button again on it sends nothing, in any session. *)
Theorem manual_reset_is_inert (state : session)
    (edited_manual_transactions manual_transactions : list transaction)
    (outcome : upload_outcome) :
  (upload_manual today state true edited_manual_transactions manual_transactions).2
  = Some outcome →
  uploaded outcome = true →
  let manual' :=
    (upload_manual today state true edited_manual_transactions manual_transactions).1 in
  manual' = [empty_row today]
  ∧ ∀ state',
      uploaded (upload_to_spliit today state' manual') = false
      ∧ requests (upload_to_spliit today state' manual') = [].
Proof.
  unfold upload_manual, render_upload_section. simpl.
  destruct (uploaded (upload_to_spliit _ _ _)) eqn:Hup; simpl;
    intros [= <-] Hup'; [|congruence].
  split; [done|]. intros state'. by apply upload_nothing.
Qed.

End Button.

Lemma upload_selected_pending_witness :
  upload_to_spliit 739000 session_60_40 (List.filter UploadSection.is_selected edited_rows)
  = upload_to_spliit 739000 session_60_40 (List.filter UploadSection.is_selected edited_rows)
  ∧ (uploaded (upload_to_spliit 739000 session_60_40
                 (List.filter UploadSection.is_selected edited_rows)) = true →
       ∀ t, t ∈ (UploadSection.upload_selected 739000 session_60_40 true edited_rows []).1
            ↔ t ∈ edited_rows ∧ UploadSection.is_selected t = false)
  ∧ (uploaded (upload_to_spliit 739000 session_60_40
                 (List.filter UploadSection.is_selected edited_rows)) = false →
       (UploadSection.upload_selected 739000 session_60_40 true edited_rows []).1 = []).
Proof.
  apply (upload_selected_pending 739000 session_60_40 edited_rows []).
  reflexivity.
Defined.

(** Five ticked rows, the third of which fails at the ledger: four are
    created, and all five leave the pending list. *)
Example upload_selected_drops_failed_row :
  ∃ outcome,
    UploadSection.upload_selected 739000 session_60_40 true edited_rows edited_rows
    = ([manual_entry "Soap" 25], Some outcome)
    ∧ uploaded outcome = true
    ∧ length (requests outcome) = 5%nat
    ∧ count_accepted third_call_fails 0 (requests outcome) = 4%nat.
Proof. eexists. split; [vm_compute; reflexivity|]. by repeat split. Qed.

Lemma manual_reset_is_inert_witness :
  (UploadSection.upload_manual 739000 session_60_40 true five_entries []).1
  = [UploadSection.empty_row 739000]
  ∧ ∀ state',
      uploaded (upload_to_spliit 739000 state'
                  (UploadSection.upload_manual 739000 session_60_40 true
                     five_entries []).1) = false
      ∧ requests (upload_to_spliit 739000 state'
                    (UploadSection.upload_manual 739000 session_60_40 true
                       five_entries []).1) = [].
Proof.
  apply (manual_reset_is_inert 739000 session_60_40 five_entries []
           (upload_to_spliit 739000 session_60_40 five_entries)).
  - reflexivity.
  - vm_compute. reflexivity.
Defined.

(** ** The MCC table *)

Section Mcc.

Import MccCodes.

Lemma get_mcc_codes_snoc (items : list mcc_item) (item : mcc_item) :
  get_mcc_codes (Some (items ++ [item]))
  = match item_mcc item, item_description item with
    | Some mcc, Some description => <[mcc := description]> (get_mcc_codes (Some items))
    | _, _ => get_mcc_codes (Some items)
    end.
Proof. unfold get_mcc_codes. by rewrite foldl_app. Qed.

(** The table maps a code to the description of the last item of the list
    that has both that code and a description; items lacking either key do
    not count.  When the download failed the table is empty, and every
    category is the placeholder with the raw code. *)
Theorem get_mcc_codes_lookup (items : list mcc_item) (code description : string) :
  (get_mcc_codes (Some items) !! code = Some description
   ↔ ∃ before item after,
       items = before ++ item :: after
       ∧ item_mcc item = Some code
       ∧ item_description item = Some description
       ∧ Forall (λ later, ¬ describes code later) after)
  ∧ ∀ s, t_category (normalize (get_mcc_codes None) s)
         = Some ("Unknown (" +:+ mcc_string s +:+ ")").
Proof.
  split; [|done]. revert description.
  induction items as [|x items IH] using rev_ind; intros description.
  - simpl. rewrite lookup_empty. split; [done|].
    intros (before & item & after & H & _). by destruct before.
  - rewrite get_mcc_codes_snoc. split.
    + intros Hlook.
      destruct (item_mcc x) as [c|] eqn:Hc;
        [destruct (item_description x) as [d|] eqn:Hd;
           [destruct (decide (c = code)) as [->|Hne]|]|].
      * rewrite lookup_insert_eq in Hlook. injection Hlook as ->.
        exists items, x, []. by repeat split.
      * rewrite lookup_insert_ne in Hlook by done.
        apply IH in Hlook as (before & item & after & -> & Hi1 & Hi2 & Hafter).
        exists before, item, (after ++ [x]). rewrite <- app_assoc. simpl.
        repeat split; try done. apply Forall_app. split; [done|].
        constructor; [|done]. intros [Hx _]. congruence.
      * apply IH in Hlook as (before & item & after & -> & Hi1 & Hi2 & Hafter).
        exists before, item, (after ++ [x]). rewrite <- app_assoc. simpl.
        repeat split; try done. apply Forall_app. split; [done|].
        constructor; [|done]. intros [_ [d Hx]]. congruence.
      * apply IH in Hlook as (before & item & after & -> & Hi1 & Hi2 & Hafter).
        exists before, item, (after ++ [x]). rewrite <- app_assoc. simpl.
        repeat split; try done. apply Forall_app. split; [done|].
        constructor; [|done]. intros [Hx _]. congruence.
    + intros (before & item & after & Hsplit & Hi1 & Hi2 & Hafter).
      destruct after as [|y after _] using rev_ind.
      * apply app_inj_tail in Hsplit as [-> ->].
        rewrite Hi1, Hi2. apply lookup_insert_eq.
      * rewrite app_comm_cons, app_assoc in Hsplit.
        apply app_inj_tail in Hsplit as [-> ->].
        apply Forall_app in Hafter as [Hafter Hy].
        apply Forall_inv in Hy.
        assert (Hrest : get_mcc_codes (Some (before ++ item :: after)) !! code
                        = Some description).
        { apply IH. by exists before, item, after. }
        destruct (item_mcc y) as [c|] eqn:Hc; [|done].
        destruct (item_description y) as [d|] eqn:Hd; [|done].
        rewrite lookup_insert_ne; [done|].
        intros ->. apply Hy. split; [done | by eexists].
Qed.

End Mcc.

(** ** The CSV import *)

Section Csv.

Import CsvImport.

Variable parse_float : string → option Q.
Variable today : Z.

Lemma csv_rows_counts (data : list (list string)) : ∀ st : csv_state,
  let st' := foldl (csv_row parse_float today) st data in
  (length (transactions st') + error_count st' + short_rows data
   = length (transactions st) + error_count st + length data)%nat
  ∧ (row_number st' + short_rows data = row_number st + length data)%nat
  ∧ (length (csv_errors st') + error_count st
     = length (csv_errors st) + error_count st')%nat
  ∧ (Forall (csv_shaped today) (transactions st) →
     Forall (csv_shaped today) (transactions st')).
Proof.
  induction data as [|row data IH]; intros st.
  { simpl. repeat split; try done; lia. }
  cbn [foldl]. specialize (IH (csv_row parse_float today st row)).
  cbv zeta in IH. destruct IH as (IH1 & IH2 & IH3 & IH4).
  unfold short_rows in *. cbn [List.filter length].
  destruct row as [|cell0 [|cell1 more]].
  - simpl in *. repeat split; try lia. done.
  - simpl in *. repeat split; try lia. done.
  - change (length (cell0 :: cell1 :: more) <? 2)%nat with false.
    unfold csv_row in *.
    destruct (parse_float (strip cell0)) as [amount|]; simpl in *.
    + rewrite length_app in IH1. simpl in IH1.
      repeat split; try lia. intros Hshaped. apply IH4.
      apply Forall_app. split; [done|]. constructor; [|done].
      unfold csv_shaped. simpl. repeat split; by eexists.
    + rewrite length_app in IH3. simpl in IH3.
      repeat split; try lia. done.
Qed.

(** Reading a CSV file fails on a file without any row (the header is
    skipped with [next]).  Otherwise every row after the header is either
    skipped for having fewer than two cells, counted as an error, or turned
    into one transaction; one message is shown per error; the row numbers
    count only the rows with at least two cells; and every transaction has
    a name, an amount, today's date and no external id. *)
Theorem read_csv_counts (rows : list (list string)) :
  (rows = [] → read_csv parse_float today rows = None)
  ∧ ∀ header data, rows = header :: data →
      ∃ st,
        read_csv parse_float today rows = Some st
        ∧ (length (transactions st) + error_count st + short_rows data
           = length data)%nat
        ∧ row_number st = (1 + length (transactions st) + error_count st)%nat
        ∧ length (csv_errors st) = error_count st
        ∧ Forall (csv_shaped today) (transactions st).
Proof.
  split; [by intros ->|]. intros header data ->. simpl.
  eexists. split; [done|].
  destruct (csv_rows_counts data
              {| transactions := []; error_count := 0;
                 row_number := 1; csv_errors := [] |})
    as (H1 & H2 & H3 & H4).
  simpl in *. repeat split; try lia. by apply H4.
Qed.

End Csv.
